(** * sqlmap scan-task orchestrator (toolkit/sqlmap.py)

    A shallow embedding of the task registry, the command builder, the
    stream-reading coroutine, the staged output parser and the status
    query of [toolkit/sqlmap.py], with the properties of the design
    document stated over them.

    Conventions of the embedding.
    - Text is a [string] whose characters are code points below 256; the
      character classes below are Python's for that range.
    - The global dict [tasks] is a [gmap string task]; a task dict is a
      record whose optional keys are [option] fields.
    - A coroutine is a program counter over its [await] points; what
      runs between two awaits is one atomic step, as under asyncio's
      single-threaded event loop.
    - Clock readings ([loop.time()]) are integers counting hundredths of a
      second, the precision the status report prints. *)

From Stdlib Require Import String Ascii ZArith List Lia Bool DecimalString.
From stdpp Require Import gmap strings list.

Import ListNotations.
Local Open Scope string_scope.
Local Open Scope list_scope.
Local Open Scope Z_scope.
Local Open Scope nat_scope.

(* ===================================================================== *)
(** * Python string primitives *)
(* ===================================================================== *)

Module PyStr.

(** [str.isspace] on one character; also the regex class [\s] and the
    separators of [str.split()] and [str.rstrip()]. *)
Definition is_space (a : ascii) : bool :=
  let n := nat_of_ascii a in
  ((9 <=? n) && (n <=? 13)) || ((28 <=? n) && (n <=? 32))
  || (n =? 133) || (n =? 160).

(** The regex class [\w] of a [str] pattern: alphanumerics and [_]. *)
Definition is_word (a : ascii) : bool :=
  let n := nat_of_ascii a in
  ((48 <=? n) && (n <=? 57)) || ((65 <=? n) && (n <=? 90)) || (n =? 95)
  || ((97 <=? n) && (n <=? 122))
  || (n =? 170) || (n =? 178) || (n =? 179) || (n =? 181) || (n =? 185)
  || (n =? 186) || ((188 <=? n) && (n <=? 190))
  || ((192 <=? n) && (n <=? 214)) || ((216 <=? n) && (n <=? 246))
  || (248 <=? n).

(** Line boundaries of [str.splitlines]. *)
Definition is_linebreak (a : ascii) : bool :=
  let n := nat_of_ascii a in
  ((10 <=? n) && (n <=? 13)) || ((28 <=? n) && (n <=? 30)) || (n =? 133).

Definition nl : ascii := ascii_of_nat 10.
Definition cr : ascii := ascii_of_nat 13.
Definition NL : string := String nl EmptyString.

Definition is_empty (s : string) : bool :=
  match s with EmptyString => true | _ => false end.

(** [s.rstrip()] *)
Fixpoint rstrip (s : string) : string :=
  match s with
  | EmptyString => EmptyString
  | String a t =>
      let r := rstrip t in
      if is_empty r && is_space a then EmptyString else String a r
  end.

(** [s[len(p):]] when [s.startswith(p)] *)
Fixpoint strip_prefix (p s : string) : option string :=
  match p, s with
  | EmptyString, _ => Some s
  | String a p', String b s' =>
      if Ascii.eqb a b then strip_prefix p' s' else None
  | String _ _, EmptyString => None
  end.

Definition startswith (s p : string) : bool :=
  match strip_prefix p s with Some _ => true | None => false end.

(** [sub in s] *)
Fixpoint contains (sub s : string) : bool :=
  if startswith s sub then true
  else match s with
       | EmptyString => false
       | String _ t => contains sub t
       end.

(** [s.replace(old, new)] for a non-empty [old]: every occurrence, left
    to right, without overlap.  [skip] counts the characters of an
    occurrence that are still to be dropped. *)
Fixpoint replace_from (old new : string) (skip : nat) (s : string) : string :=
  match s with
  | EmptyString => EmptyString
  | String a t =>
      match skip with
      | S k => replace_from old new k t
      | O =>
          if startswith s old
          then new +:+ replace_from old new (String.length old - 1) t
          else String a (replace_from old new 0 t)
      end
  end.

Definition replace (old new s : string) : string := replace_from old new 0 s.

(** [sep.join(l)] *)
Definition join (sep : string) (l : list string) : string := String.concat sep l.

(** [s.split()]: maximal runs of non-space characters.  [cur] is the run
    being read. *)
Fixpoint split_from (cur : option string) (s : string) : list string :=
  match s with
  | EmptyString =>
      match cur with Some w => [w] | None => [] end
  | String a t =>
      if is_space a
      then match cur with
           | Some w => w :: split_from None t
           | None => split_from None t
           end
      else match cur with
           | Some w => split_from (Some (w +:+ String a EmptyString)) t
           | None => split_from (Some (String a EmptyString)) t
           end
  end.

Definition split (s : string) : list string := split_from None s.

(** [s.strip(chars)] for a one-character [chars] *)
Fixpoint lstrip_chr (c : ascii) (s : string) : string :=
  match s with
  | String a t => if Ascii.eqb a c then lstrip_chr c t else s
  | EmptyString => EmptyString
  end.

Fixpoint rstrip_chr (c : ascii) (s : string) : string :=
  match s with
  | EmptyString => EmptyString
  | String a t =>
      let r := rstrip_chr c t in
      if is_empty r && Ascii.eqb a c then EmptyString else String a r
  end.

Definition strip_chr (c : ascii) (s : string) : string :=
  rstrip_chr c (lstrip_chr c s).

(** [s.strip()] *)
Fixpoint lstrip (s : string) : string :=
  match s with
  | String a t => if is_space a then lstrip t else s
  | EmptyString => EmptyString
  end.

Definition strip (s : string) : string := rstrip (lstrip s).

(** [s.splitlines()]: the lines of [s] without their terminators.  A
    carriage return followed by a line feed is one terminator
    ([after_cr] says the previous character was a carriage return), and a
    terminator at the very end opens no further line. *)
Fixpoint splitlines_from (after_cr : bool) (s : string) : list string :=
  match s with
  | EmptyString => []
  | String a t =>
      if after_cr && Ascii.eqb a nl then splitlines_from false t
      else if is_linebreak a then EmptyString :: splitlines_from (Ascii.eqb a cr) t
      else match splitlines_from false t with
           | [] => [String a EmptyString]
           | l :: ls => String a l :: ls
           end
  end.

Definition splitlines (s : string) : list string := splitlines_from false s.

(** [l[-n:]] for a positive [n] *)
Definition last_n {A} (n : nat) (l : list A) : list A :=
  drop (length l - n) l.

(** [str(z)] of an [int] *)
Definition str_of_Z (z : Z) : string := NilZero.string_of_int (Z.to_int z).

End PyStr.

(* ===================================================================== *)
(** * The fragment of Python's [re] that the module uses *)
(* ===================================================================== *)

(** A backtracking matcher in continuation-passing style: alternatives
    are tried in the priority order of Python's engine (a greedy
    repetition tries one more iteration first, a lazy one tries the rest
    of the pattern first), and the first success is the match. *)
Module Re.

Import PyStr.

Inductive cclass :=
  | CAny      (* [.] under [re.DOTALL] *)
  | CDot      (* [.] without flags: any character but a line feed *)
  | CSpace    (* [\s] *)
  | CWord.    (* [\w] *)

Definition cmatch (c : cclass) (a : ascii) : bool :=
  match c with
  | CAny => true
  | CDot => negb (Ascii.eqb a nl)
  | CSpace => is_space a
  | CWord => is_word a
  end.

Inductive regex :=
  | RLit (l : string)                     (* literal text *)
  | RSeq (r1 r2 : regex)                  (* r1 r2 *)
  | RGroup (n : nat) (r : regex)          (* capturing group number n *)
  | RPlus (greedy : bool) (c : cclass)    (* c+ and c+? *)
  | RPlusG (r : regex).                   (* (?:r)+ *)

(** Captured groups, most recent first. *)
Definition caps := list (nat * string).

Fixpoint group (n : nat) (c : caps) : string :=
  match c with
  | [] => EmptyString
  | (m, s) :: c' => if Nat.eqb n m then s else group n c'
  end.

Definition orelse {A} (x y : option A) : option A :=
  match x with Some _ => x | None => y end.

(** One or more characters of a class, then the continuation. *)
Fixpoint plus_class {A} (greedy : bool) (p : ascii -> bool) (s : string)
    (k : string -> option A) : option A :=
  match s with
  | EmptyString => None
  | String a t =>
      if p a
      then if greedy
           then orelse (plus_class greedy p t k) (k t)
           else orelse (k t) (plus_class greedy p t k)
      else None
  end.

(** [rmatch r s c k]: match [r] at the start of [s] with the groups [c]
    captured so far, then run [k] on what is left.  The repetition of a
    group iterates while an iteration consumes input, which bounds the
    number of iterations by the length of the input. *)
Fixpoint rmatch {A} (r : regex) (s : string) (c : caps)
    (k : string -> caps -> option A) {struct r} : option A :=
  match r with
  | RLit l =>
      match strip_prefix l s with
      | Some s' => k s' c
      | None => None
      end
  | RSeq r1 r2 => rmatch r1 s c (fun s' c' => rmatch r2 s' c' k)
  | RGroup n r1 =>
      rmatch r1 s c (fun s' c' =>
        k s' ((n, substring 0 (String.length s - String.length s') s) :: c'))
  | RPlus greedy cl => plus_class greedy (cmatch cl) s (fun s' => k s' c)
  | RPlusG r1 =>
      (fix iter (fuel : nat) (s : string) (c : caps) : option A :=
         rmatch r1 s c (fun s' c' =>
           match fuel with
           | S f =>
               if String.length s' <? String.length s
               then orelse (iter f s' c') (k s' c')
               else k s' c'
           | O => k s' c'
           end))
        (String.length s) s c
  end.

(** [pattern.match(s)] at the start of [s]: the groups and the rest. *)
Definition match_here (r : regex) (s : string) : option (string * caps) :=
  rmatch r s [] (fun s' c => Some (s', c)).

(** [re.search(r, s)]: the leftmost match. *)
Fixpoint search (r : regex) (s : string) : option caps :=
  match match_here r s with
  | Some (_, c) => Some c
  | None =>
      match s with
      | EmptyString => None
      | String _ t => search r t
      end
  end.

(** [re.findall(r, s)]: the matches from left to right, without overlap;
    [skip] counts the characters of the last match still to be passed.
    (The patterns of this module never match the empty string.) *)
Fixpoint findall_from (r : regex) (skip : nat) (s : string) : list caps :=
  match s with
  | EmptyString => []
  | String _ t =>
      match skip with
      | S k => findall_from r k t
      | O =>
          match match_here r s with
          | Some (s', c) =>
              c :: findall_from r (String.length s - String.length s' - 1) t
          | None => findall_from r 0 t
          end
      end
  end.

Definition findall (r : regex) (s : string) : list caps := findall_from r 0 s.

(** The concatenation of several patterns. *)
Fixpoint rseq (l : list regex) : regex :=
  match l with
  | [] => RLit EmptyString
  | [r] => r
  | r :: l' => RSeq r (rseq l')
  end.

End Re.

(* ===================================================================== *)
(** * toolkit/sqlmap.py *)
(* ===================================================================== *)

Module Sqlmap.

Import PyStr Re.

(** ** Data *)

Inductive ScanStatus := QUEUED | RUNNING | COMPLETED | FAILED.

#[export] Instance ScanStatus_eq_dec : EqDecision ScanStatus.
Proof. solve_decision. Defined.

(** The values an option may carry ([Dict[str, Any]]).  A float is kept
    as the text [str()] gives for it, the only use the program makes of
    it. *)
Inductive pyval :=
  | VBool (b : bool)
  | VInt (z : Z)
  | VFloat (repr : string)
  | VStr (s : string)
  | VOther.                (* None, lists, ...: no branch takes them *)

(** One entry of [results]: a dict with the keys [parameter], [type],
    [title], [payload], [info], not all present. *)
Record finding := {
  parameter : option string;
  type : string;
  title : option string;
  payload : option string;
  info : option string;
}.

#[export] Instance finding_eq_dec : EqDecision finding.
Proof. solve_decision. Defined.

(** One entry of [vulnerabilities], found while the scan streams. *)
Record live_vuln := { v_parameter : string; v_type : string }.

Definition finding_of_vuln (v : live_vuln) : finding :=
  {| parameter := Some (v_parameter v); type := v_type v;
     title := None; payload := None; info := None |}.

(** A task dict.  [results] is [None] for Python's [None]; the other
    [option] fields are keys that may be absent. *)
Record task := {
  status : ScanStatus;
  target_url : string;
  options : list (string * pyval);
  start_time : option Z;
  output : option string;
  results : option (list finding);
  command : option string;
  critical_lines : option (list string);
  vulnerabilities : option (list live_vuln);
  errors : option (list string);
  return_code : option Z;
  end_time : option Z;
  error : option string;
  parse_error : option string;
}.

Definition set_status (v : ScanStatus) (t : task) : task :=
  let 'Build_task _ b c d e f g h i j k l m n := t in
  Build_task v b c d e f g h i j k l m n.
Definition set_output (v : option string) (t : task) : task :=
  let 'Build_task a b c d _ f g h i j k l m n := t in
  Build_task a b c d v f g h i j k l m n.
Definition set_results (v : option (list finding)) (t : task) : task :=
  let 'Build_task a b c d e _ g h i j k l m n := t in
  Build_task a b c d e v g h i j k l m n.
Definition set_command (v : option string) (t : task) : task :=
  let 'Build_task a b c d e f _ h i j k l m n := t in
  Build_task a b c d e f v h i j k l m n.
Definition set_critical_lines (v : option (list string)) (t : task) : task :=
  let 'Build_task a b c d e f g _ i j k l m n := t in
  Build_task a b c d e f g v i j k l m n.
Definition set_vulnerabilities (v : option (list live_vuln)) (t : task) : task :=
  let 'Build_task a b c d e f g h _ j k l m n := t in
  Build_task a b c d e f g h v j k l m n.
Definition set_errors (v : option (list string)) (t : task) : task :=
  let 'Build_task a b c d e f g h i _ k l m n := t in
  Build_task a b c d e f g h i v k l m n.
Definition set_return_code (v : option Z) (t : task) : task :=
  let 'Build_task a b c d e f g h i j _ l m n := t in
  Build_task a b c d e f g h i j v l m n.
Definition set_end_time (v : option Z) (t : task) : task :=
  let 'Build_task a b c d e f g h i j k _ m n := t in
  Build_task a b c d e f g h i j k v m n.
Definition set_error (v : option string) (t : task) : task :=
  let 'Build_task a b c d e f g h i j k l _ n := t in
  Build_task a b c d e f g h i j k l v n.

(** ** The command line (run_sqlmap_scan, lines 40-49) *)

Definition SQLMAP_PATH : string := "sqlmap".

(** The f-string rendering [f"{value}"]. *)
Definition format_value (v : pyval) : string :=
  match v with
  | VBool true => "True"
  | VBool false => "False"
  | VInt z => str_of_Z z
  | VFloat r => r
  | VStr s => s
  | VOther => EmptyString
  end.

(** One turn of the loop over [options.items()]: what it appends to
    [cmd].  A [bool] is an [int] for [isinstance], so the second test
    also takes the booleans the first one let through. *)
Definition option_args (key : string) (value : pyval) : list string :=
  match value with
  | VBool true => ["--" +:+ key]
  | VBool false | VInt _ | VFloat _ =>
      ["--" +:+ key +:+ "=" +:+ format_value value]
  | VStr _ => ["--" +:+ key +:+ "=" +:+ format_value value]
  | VOther => []
  end.

Definition build_cmd (target_url : string) (options : list (string * pyval))
    : list string :=
  [SQLMAP_PATH; "-u"; target_url; "--batch"; "--disable-coloring"]
  ++ flat_map (fun kv => option_args (fst kv) (snd kv)) options.

(** ** parse_scan_results_from_output *)

(** [Parameter: (.+?) \(.+?\)\n((?:\s+Type: .+?\n\s+Title: .+?\n\s+Payload: .+?\n)+)]
    with [re.DOTALL] *)
Definition vuln_block_body : regex :=
  rseq [RPlus true CSpace; RLit "Type: "; RPlus false CAny; RLit NL;
        RPlus true CSpace; RLit "Title: "; RPlus false CAny; RLit NL;
        RPlus true CSpace; RLit "Payload: "; RPlus false CAny; RLit NL].

Definition injection_point_re : regex :=
  rseq [RLit "Parameter: "; RGroup 1 (RPlus false CAny); RLit " (";
        RPlus false CAny; RLit (")" +:+ NL);
        RGroup 2 (RPlusG vuln_block_body)].

(** [\s+Type: (.+?)\n\s+Title: (.+?)\n\s+Payload: (.+?)\n] with
    [re.DOTALL] *)
Definition vuln_re : regex :=
  rseq [RPlus true CSpace; RLit "Type: "; RGroup 1 (RPlus false CAny); RLit NL;
        RPlus true CSpace; RLit "Title: "; RGroup 2 (RPlus false CAny); RLit NL;
        RPlus true CSpace; RLit "Payload: "; RGroup 3 (RPlus false CAny); RLit NL].

(** [(\w+) parameter '(.+?)' (is vulnerable.+)] *)
Definition alt_point_re : regex :=
  rseq [RGroup 1 (RPlus true CWord); RLit " parameter '";
        RGroup 2 (RPlus false CDot); RLit "' ";
        RGroup 3 (rseq [RLit "is vulnerable"; RPlus true CDot])].

(** [back-end DBMS: (.+?)\n] *)
Definition dbms_re : regex :=
  rseq [RLit "back-end DBMS: "; RGroup 1 (RPlus false CDot); RLit NL].

(** Stage 1: the structured injection points. *)
Definition injection_findings (output : string) : list finding :=
  flat_map (fun m =>
    let param := group 1 m in
    let vuln_block := group 2 m in
    map (fun vuln =>
           {| parameter := Some param;
              type := strip (group 1 vuln);
              title := Some (strip (group 2 vuln));
              payload := Some (strip (group 3 vuln));
              info := None |})
        (findall vuln_re vuln_block))
    (findall injection_point_re output).

(** Stage 2: the one-line pattern of newer versions. *)
Definition alt_findings (output : string) : list finding :=
  map (fun m =>
         {| parameter := Some (group 2 m);
            type := group 1 m +:+ " - " +:+ group 3 m;
            title := None; payload := None; info := None |})
      (findall alt_point_re output).

(** Stage 3: the database management system. *)
Definition dbms_findings (output : string) : list finding :=
  match search dbms_re output with
  | Some m => [{| parameter := None; type := "DBMS"; title := None;
                  payload := None; info := Some (strip (group 1 m)) |}]
  | None => []
  end.

(** Stage 4: the critical lines that report a vulnerability. *)
Definition critical_findings (lines : list string) : list finding :=
  flat_map (fun line =>
    if contains "is vulnerable" line
    then [{| parameter := None; type := "CRITICAL"; title := None;
             payload := None;
             info := Some (replace "[CRITICAL] " EmptyString line) |}]
    else []) lines.

(** [any(r.get("parameter") == p for r in results)] *)
Definition has_parameter (p : string) (results : list finding) : bool :=
  existsb (fun r => bool_decide (parameter r = Some p)) results.

(** Stage 5: the loop merging what was detected while streaming. *)
Definition merge_vulnerabilities (results : list finding)
    (vulns : list live_vuln) : list finding :=
  fold_left (fun results vuln =>
               if has_parameter (v_parameter vuln) results
               then results
               else results ++ [finding_of_vuln vuln])
            vulns results.

(** The list [results] at the end of the parser's body. *)
Definition extract_results (output : string) (crit : option (list string))
    (vulns : option (list live_vuln)) : list finding :=
  let results := [] in
  let results := results ++ injection_findings output in
  let results :=
    match results with
    | [] => results ++ alt_findings output
    | _ => results
    end in
  let results := results ++ dbms_findings output in
  let results :=
    match crit with
    | Some lines => results ++ critical_findings lines
    | None => results
    end in
  let results :=
    match vulns with
    | Some vs => merge_vulnerabilities results vs
    | None => results
    end in
  results.

(** The parser on the task's dict: nothing is stored when [results] is
    empty. *)
Definition parse_task (t : task) : task :=
  match output t with
  | None => t
  | Some out =>
      match extract_results out (critical_lines t) (vulnerabilities t) with
      | [] => t
      | results => set_results (Some results) t
      end
  end.

(** [parse_scan_results_from_output(task_id)].  With [task_id] missing
    the lookup raises, the handler finds no task to mark and the
    registry stays as it is; no other statement of the body can raise. *)
Definition parse_scan_results_from_output (task_id : string)
    (tasks : gmap string task) : gmap string task :=
  match tasks !! task_id with
  | None => tasks
  | Some t => <[task_id := parse_task t]> tasks
  end.

(** ** run_sqlmap_scan *)

(** What a piece of the coroutine's body leaves behind: the task as
    mutated so far, and whether an exception was raised on the way. *)
Inductive outcome :=
  | Ok (t : task)
  | Raise (e : string) (t : task).

Definition key_error (k : string) : string := "'" +:+ k +:+ "'".

(** Lines 51-55, run without suspension once [cmd] is built. *)
Definition mark_running (cmd : list string) (t : task) : task :=
  let t := set_status RUNNING t in
  let t := set_command (Some (join " " cmd)) t in
  let t := set_output (Some EmptyString) t in
  let t := set_critical_lines (Some []) t in
  set_vulnerabilities (Some []) t.

(** Lines 68-84: a non-empty [stdout_line], already decoded. *)
Definition on_stdout_line (stdout_line : string) (t : task) : outcome :=
  let line := rstrip stdout_line in
  match output t with
  | None => Raise (key_error "output") t
  | Some o =>
      let t := set_output (Some (o +:+ line +:+ NL)) t in
      let after_critical :=
        if contains "[CRITICAL]" line
        then match critical_lines t with
             | None => Raise (key_error "critical_lines") t
             | Some cl => Ok (set_critical_lines (Some (cl ++ [line])) t)
             end
        else Ok t in
      match after_critical with
      | Raise e t => Raise e t
      | Ok t =>
          if contains "is vulnerable" line && contains "parameter" line
          then
            let parts := split line in
            if 3 <? length parts
            then
              let param := strip_chr "'" (nth 1 parts EmptyString) in
              let vuln_type := join " " (drop 3 parts) in
              match vulnerabilities t with
              | None => Raise (key_error "vulnerabilities") t
              | Some vs =>
                  Ok (set_vulnerabilities
                        (Some (vs ++ [{| v_parameter := param;
                                         v_type := vuln_type |}])) t)
              end
            else Ok t
          else Ok t
      end
  end.

(** Lines 89-93: a non-empty [stderr_line], already decoded. *)
Definition on_stderr_line (stderr_line : string) (t : task) : outcome :=
  let line := rstrip stderr_line in
  match output t with
  | None => Raise (key_error "output") t
  | Some o =>
      let t := set_output (Some (o +:+ "[ERROR] " +:+ line +:+ NL)) t in
      let t := match errors t with
               | None => set_errors (Some []) t
               | Some _ => t
               end in
      match errors t with
      | Some es => Ok (set_errors (Some (es ++ [line])) t)
      | None => Raise (key_error "errors") t
      end
  end.

(** Lines 102-111, on the registry: the status, the parse on success,
    then the final information. *)
Definition finish (task_id : string) (return_code : Z) (now : Z)
    (tasks : gmap string task) : gmap string task :=
  let tasks :=
    if (return_code =? 0)%Z
    then parse_scan_results_from_output task_id
           (alter (set_status COMPLETED) task_id tasks)
    else alter (set_status FAILED) task_id tasks in
  let tasks := alter (set_return_code (Some return_code)) task_id tasks in
  alter (set_end_time (Some now)) task_id tasks.

(** Lines 113-118: the handler of the coroutine's [try]. *)
Definition on_exception (task_id : string) (e : string) (now : Z)
    (tasks : gmap string task) : gmap string task :=
  alter (fun t => set_end_time (Some now)
                    (set_error (Some e) (set_status FAILED t)))
        task_id tasks.

(** The subprocess as the coroutine sees it: the lines waiting in each
    stream reader, whether the stream has been closed, and the exit
    status once the process has ended.  An entry of a buffer is the
    decoded text of one line [readline()] will return, line terminator
    included or not; as bytes it is never empty, so the tests
    [if stdout_line:] and [if stderr_line:] hold for it. *)
Record process := {
  stdout_buf : list string;
  stdout_eof : bool;
  stderr_buf : list string;
  stderr_eof : bool;
  exit_status : option Z;
}.

Definition spawned : process :=
  {| stdout_buf := []; stdout_eof := false;
     stderr_buf := []; stderr_eof := false; exit_status := None |}.

(** [StreamReader.at_eof()] *)
Definition stdout_at_eof (p : process) : bool :=
  stdout_eof p && match stdout_buf p with [] => true | _ => false end.
Definition stderr_at_eof (p : process) : bool :=
  stderr_eof p && match stderr_buf p with [] => true | _ => false end.

(** The [await] at which the coroutine is suspended. *)
Inductive pc :=
  | AtStart                       (* scheduled by create_task, not yet run *)
  | AtSpawn (cmd : list string)   (* await create_subprocess_exec, line 58 *)
  | AtStdout                      (* await process.stdout.readline(), line 66 *)
  | AtStderr                      (* await process.stderr.readline(), line 87 *)
  | AtWait                        (* await process.wait(), line 99 *)
  | Finished.

Record world := {
  tasks : gmap string task;
  clock : Z;
  proc : option process;
  at_pc : pc;
}.

(** What can happen next: the event loop resumes the coroutine, the
    awaited call raises, the process writes a line, closes a stream or
    exits, time passes. *)
Inductive event :=
  | Resume
  | Throw (e : string)
  | WriteStdout (line : string)
  | WriteStderr (line : string)
  | CloseStdout
  | CloseStderr
  | Exit (return_code : Z)
  | Tick (dt : Z).

Section Coroutine.

(** [cap]: how many lines a stream can hold unread before the process
    blocks on writing to it (the pipe and the reader's buffer are
    bounded).  The other three are the coroutine's arguments. *)
Variable cap : nat.
Variable task_id : string.
Variable target_url : string.
Variable options : list (string * pyval).

Definition set_proc (p : process) (pc' : pc) (w : world) : world :=
  {| tasks := tasks w; clock := clock w; proc := Some p; at_pc := pc' |}.

(** Store what a piece of the body did to the task, and go on to [next]
    or, after an exception, through the handler to the end. *)
Definition settle (o : outcome) (p : process) (next : pc) (w : world) : world :=
  match o with
  | Ok t =>
      {| tasks := <[task_id := t]> (tasks w); clock := clock w;
         proc := Some p; at_pc := next |}
  | Raise e t =>
      {| tasks := on_exception task_id e (clock w) (<[task_id := t]> (tasks w));
         clock := clock w; proc := Some p; at_pc := Finished |}
  end.

(** The coroutine runs from the await it is suspended at to the next
    one; [None] when the awaited result is not there yet. *)
Definition resume (w : world) : option world :=
  match at_pc w with
  | AtStart =>
      match tasks w !! task_id with
      | None =>
          Some {| tasks := tasks w; clock := clock w; proc := proc w;
                  at_pc := Finished |}
      | Some t =>
          let cmd := build_cmd target_url options in
          Some {| tasks := <[task_id := mark_running cmd t]> (tasks w);
                  clock := clock w; proc := proc w; at_pc := AtSpawn cmd |}
      end
  | AtSpawn _ =>
      match proc w with
      | None => Some (set_proc spawned AtStdout w)
      | Some _ => None
      end
  | AtStdout =>
      match proc w with
      | None => None
      | Some p =>
          match stdout_buf p with
          | stdout_line :: rest =>
              let p' := {| stdout_buf := rest; stdout_eof := stdout_eof p;
                           stderr_buf := stderr_buf p;
                           stderr_eof := stderr_eof p;
                           exit_status := exit_status p |} in
              match tasks w !! task_id with
              | None =>
                  Some (set_proc p' Finished w)
              | Some t => Some (settle (on_stdout_line stdout_line t) p' AtStderr w)
              end
          | [] =>
              if stdout_eof p then Some (set_proc p AtStderr w) else None
          end
      end
  | AtStderr =>
      match proc w with
      | None => None
      | Some p =>
          match stderr_buf p with
          | stderr_line :: rest =>
              let p' := {| stdout_buf := stdout_buf p;
                           stdout_eof := stdout_eof p;
                           stderr_buf := rest;
                           stderr_eof := stderr_eof p;
                           exit_status := exit_status p |} in
              let next := if stdout_at_eof p' && stderr_at_eof p'
                          then AtWait else AtStdout in
              match tasks w !! task_id with
              | None => Some (set_proc p' Finished w)
              | Some t => Some (settle (on_stderr_line stderr_line t) p' next w)
              end
          | [] =>
              if stderr_eof p
              then Some (set_proc p (if stdout_at_eof p && stderr_at_eof p
                                     then AtWait else AtStdout) w)
              else None
          end
      end
  | AtWait =>
      match proc w with
      | Some p =>
          match exit_status p with
          | Some return_code =>
              Some {| tasks := finish task_id return_code (clock w) (tasks w);
                      clock := clock w; proc := proc w; at_pc := Finished |}
          | None => None
          end
      | None => None
      end
  | Finished => None
  end.

(** The awaited call raises [e]: the handler runs and the coroutine
    ends. *)
Definition throw (e : string) (w : world) : option world :=
  match at_pc w with
  | AtSpawn _ | AtStdout | AtStderr | AtWait =>
      Some {| tasks := on_exception task_id e (clock w) (tasks w);
              clock := clock w; proc := proc w; at_pc := Finished |}
  | AtStart | Finished => None
  end.

(** The process's side: a write needs room in the stream. *)
Definition running (w : world) : option process :=
  match proc w with
  | Some p => match exit_status p with None => Some p | Some _ => None end
  | None => None
  end.

Definition with_proc (p : process) (w : world) : world :=
  {| tasks := tasks w; clock := clock w; proc := Some p; at_pc := at_pc w |}.

Definition step (w : world) (e : event) : option world :=
  match e with
  | Resume => resume w
  | Throw e => throw e w
  | WriteStdout line =>
      match running w with
      | Some p =>
          if negb (stdout_eof p) && (length (stdout_buf p) <? cap)
          then Some (with_proc
                 {| stdout_buf := stdout_buf p ++ [line];
                    stdout_eof := stdout_eof p;
                    stderr_buf := stderr_buf p; stderr_eof := stderr_eof p;
                    exit_status := exit_status p |} w)
          else None
      | None => None
      end
  | WriteStderr line =>
      match running w with
      | Some p =>
          if negb (stderr_eof p) && (length (stderr_buf p) <? cap)
          then Some (with_proc
                 {| stdout_buf := stdout_buf p; stdout_eof := stdout_eof p;
                    stderr_buf := stderr_buf p ++ [line];
                    stderr_eof := stderr_eof p;
                    exit_status := exit_status p |} w)
          else None
      | None => None
      end
  | CloseStdout =>
      match running w with
      | Some p =>
          Some (with_proc
                 {| stdout_buf := stdout_buf p; stdout_eof := true;
                    stderr_buf := stderr_buf p; stderr_eof := stderr_eof p;
                    exit_status := exit_status p |} w)
      | None => None
      end
  | CloseStderr =>
      match running w with
      | Some p =>
          Some (with_proc
                 {| stdout_buf := stdout_buf p; stdout_eof := stdout_eof p;
                    stderr_buf := stderr_buf p; stderr_eof := true;
                    exit_status := exit_status p |} w)
      | None => None
      end
  | Exit return_code =>
      match running w with
      | Some p =>
          Some (with_proc
                 {| stdout_buf := stdout_buf p; stdout_eof := true;
                    stderr_buf := stderr_buf p; stderr_eof := true;
                    exit_status := Some return_code |} w)
      | None => None
      end
  | Tick dt =>
      if (0 <=? dt)%Z
      then Some {| tasks := tasks w; clock := (clock w + dt)%Z;
                   proc := proc w; at_pc := at_pc w |}
      else None
  end.

(** A run: the events in order, each enabled where it happens. *)
Fixpoint run (evs : list event) (w : world) : option world :=
  match evs with
  | [] => Some w
  | e :: evs' =>
      match step w e with
      | Some w' => run evs' w'
      | None => None
      end
  end.

End Coroutine.

(** ** ExecSqlmap (the adapter, lines 331-394) *)

(** [options[name] = value] on an insertion-ordered dict. *)
Fixpoint dict_set (name : string) (value : pyval)
    (d : list (string * pyval)) : list (string * pyval) :=
  match d with
  | [] => [(name, value)]
  | (k, v) :: d' =>
      if String.eqb k name then (k, value) :: d'
      else (k, v) :: dict_set name value d'
  end.

(** The [while] loop over [data]: pairs [--option value] and bare
    flags. *)
Fixpoint data_options (data : list string) (options : list (string * pyval))
    : list (string * pyval) :=
  match data with
  | [] => options
  | d :: rest =>
      match strip_prefix "--" d with
      | Some option_name =>
          match rest with
          | v :: rest' =>
              if startswith v "--"
              then data_options rest (dict_set option_name (VBool true) options)
              else data_options rest' (dict_set option_name (VStr v) options)
          | [] => dict_set option_name (VBool true) options
          end
      | None => data_options rest options
      end
  end.

Definition new_task (url : string) (options : list (string * pyval))
    (now : Z) : task :=
  {| status := QUEUED; target_url := url; options := options;
     start_time := Some now; output := Some EmptyString; results := None;
     command := None; critical_lines := None; vulnerabilities := None;
     errors := None; return_code := None; end_time := None;
     error := None; parse_error := None |}.

(** Lines 371-381, shared by both definitions of [ExecSqlmap]: the task
    dict is stored under [task_id], the identifier [uuid4] drew, and the
    coroutine is scheduled.  [registry] and [now] are the global dict
    and the clock at the call. *)
Definition submit (url : string) (options : list (string * pyval))
    (task_id : string) (registry : gmap string task) (now : Z) : world :=
  {| tasks := <[task_id := new_task url options now]> registry;
     clock := now; proc := None; at_pc := AtStart |}.

(** [ExecSqlmap(url, data)]: the world after the call, with the
    [options] the coroutine is given. *)
Definition ExecSqlmap (url : string) (data : option (list string))
    (task_id : string) (registry : gmap string task) (now : Z)
    : world * list (string * pyval) :=
  let options := match data with
                 | Some ((_ :: _) as l) => data_options l []
                 | _ => []
                 end in
  (submit url options task_id registry now, options).

(** ** get_scan_status *)

(** [sqlmap identified the following injection point\(s\):(.+?)\n\n]
    with [re.DOTALL] *)
Definition summary_re : regex :=
  rseq [RLit "sqlmap identified the following injection point(s):";
        RGroup 1 (RPlus false CAny); RLit (NL +:+ NL)].

(** [\[ERROR\] (.+)] *)
Definition error_re : regex :=
  rseq [RLit "[ERROR] "; RGroup 1 (RPlus true CDot)].

Definition two_digits (n : Z) : string :=
  (if (n <? 10)%Z then "0" else EmptyString) +:+ str_of_Z n.

(** [f"{elapsed:.2f}s"], [elapsed] counted in hundredths of a second. *)
Definition format_elapsed (elapsed : Z) : string :=
  (if (elapsed <? 0)%Z then "-" else EmptyString)
  +:+ str_of_Z (Z.abs elapsed / 100) +:+ "."
  +:+ two_digits (Z.abs elapsed mod 100) +:+ "s".

(** The dict the query returns. *)
Record report := {
  r_task_id : string;
  r_status : ScanStatus;
  r_target_url : string;
  r_elapsed_time : option string;
  r_results : option (list finding);
  r_partial_output : option string;
  r_summary : option string;
  r_error : option string;
  r_command : option string;
}.

Definition truthy {A} (l : option (list A)) : bool :=
  match l with Some (_ :: _) => true | _ => false end.

Definition last_error (task : task) : option string :=
  match error task with
  | Some e => Some e
  | None =>
      match errors task with
      | Some (e :: es) => Some (List.last es e)
      | _ =>
          match output task with
          | Some o =>
              match search error_re o with
              | Some m => Some (group 1 m)
              | None => None
              end
          | None => None
          end
      end
  end.

(** The dict [status] that the query builds for a known task, at clock
    reading [current_time]. *)
Definition status_of_task (task_id : string) (current_time : Z)
    (task : task) : report :=
  {|
    r_task_id := task_id;
    r_status := status task;
    r_target_url := target_url task;
    r_elapsed_time :=
      match start_time task with
      | Some start =>
          let elapsed := (current_time - start)%Z in
          Some (format_elapsed elapsed)
      | None => None
      end;
    r_results := if truthy (results task) then results task else None;
    r_partial_output :=
      match status task, output task with
      | RUNNING, Some o =>
          let lines := splitlines o in
          Some (join NL (last_n 20 lines))
      | _, _ => None
      end;
    r_summary :=
      match status task, output task with
      | COMPLETED, Some o =>
          match search summary_re o with
          | Some m => Some (strip (group 1 m))
          | None =>
              Some (if truthy (results task)
                    then "Vulnerabilities detected"
                    else "No vulnerabilities found")
          end
      | _, _ => None
      end;
    r_error :=
      match status task with
      | FAILED => last_error task
      | _ => None
      end;
    r_command := command task;
  |}.

(** [get_scan_status(task_id)]: the error for an unknown id, else the
    report; second, the registry after the call, in which the body
    assigns nothing. *)
Definition get_scan_status (task_id : string) (current_time : Z)
    (tasks : gmap string task) : (string + report) * gmap string task :=
  match tasks !! task_id with
  | None => (inl "Invalid task ID", tasks)
  | Some task => (inr (status_of_task task_id current_time task), tasks)
  end.

(** ** list_scans *)

(** One entry of the two lists: the dict [task_info].  [end_time] is a
    key of the entries of the completed list only. *)
Record task_info := {
  i_task_id : string;
  i_status : ScanStatus;
  i_target_url : string;
  i_start_time : Z;
  i_end_time : option Z;
}.

(** The dict built at the top of the loop body:
    [task.get("start_time", 0)] for the start time. *)
Definition info_of (task_id : string) (task : task) : task_info :=
  {| i_task_id := task_id; i_status := status task;
     i_target_url := target_url task;
     i_start_time := default 0%Z (start_time task);
     i_end_time := None |}.

(** [task_info["end_time"] = task.get("end_time", 0)] *)
Definition with_end_time (task : task) (i : task_info) : task_info :=
  {| i_task_id := i_task_id i; i_status := i_status i;
     i_target_url := i_target_url i; i_start_time := i_start_time i;
     i_end_time := Some (default 0%Z (end_time task)) |}.

Definition is_active (s : ScanStatus) : bool :=
  match s with QUEUED | RUNNING => true | COMPLETED | FAILED => false end.

(** [list_scans(include_completed)]: [items] is [tasks.items()], the
    entries of the registry in insertion order; the result is the pair
    of [active_tasks] and [completed_tasks].  The four statuses are all
    the values the field can hold, so the second test of the [elif] is
    the negation of the first. *)
Fixpoint list_scans (include_completed : bool) (items : list (string * task))
    : list task_info * list task_info :=
  match items with
  | [] => ([], [])
  | (task_id, task) :: rest =>
      let '(active_tasks, completed_tasks) := list_scans include_completed rest in
      let task_info := info_of task_id task in
      if is_active (status task)
      then (task_info :: active_tasks, completed_tasks)
      else if include_completed
           then (active_tasks, with_end_time task task_info :: completed_tasks)
           else (active_tasks, completed_tasks)
  end.

(** ** SqlmapScanner (server.py, lines 60-69) *)

(** The MCP tool: [data], when given and not empty, is passed on as the
    two arguments [--data] and [data]. *)
Definition SqlmapScanner (url : string) (data : option string)
    (task_id : string) (registry : gmap string task) (now : Z)
    : world * list (string * pyval) :=
  let sqlmap_args :=
    match data with
    | Some (String _ _ as d) => ["--data"; d]
    | _ => []
    end in
  ExecSqlmap url (Some sqlmap_args) task_id registry now.

End Sqlmap.

(* ===================================================================== *)
(** * Concrete scans *)
(* ===================================================================== *)

Module Scenario.

Import PyStr Re Sqlmap.

Definition url : string := "http://example.com/page?id=1".
Definition opts : list (string * pyval) := [("level", VInt 3)].

Definition start : world := submit url opts "t1" ∅ 0.

(** The coroutine is resumed [n] times in a row. *)
Definition resumes (n : nat) : list event := repeat Resume n.

(** A scan that prints nothing and exits with status [rc] after five
    seconds. *)
Definition silent (rc : Z) : list event :=
  [Resume; Resume; Tick 500; Exit rc] ++ resumes 3.

(** The text sqlmap prints for one injection point. *)
Definition block : list string :=
  ["Parameter: id (GET)";
   "    Type: boolean-based blind";
   "    Title: AND boolean-based blind - WHERE or HAVING clause";
   "    Payload: id=1 AND 5049=5049"].

(** A scan that prints [lines] on its standard output and exits with
    status [rc]; the coroutine reads once the process has ended. *)
Definition prints (lines : list string) (rc : Z) : list event :=
  [Resume; Resume] ++ map WriteStdout lines ++ [Tick 500; Exit rc]
  ++ resumes (2 * length lines + 1).

(** The process fills its standard error while the coroutine waits for
    a line on standard output. *)
Definition stderr_first (n : nat) : list event :=
  [Resume; Resume] ++ repeat (WriteStderr "[WARNING] retrying") n.

Definition final (cap : nat) (evs : list event) : option task :=
  match run cap "t1" url opts evs start with
  | Some w => tasks w !! "t1"
  | None => None
  end.

End Scenario.

(* ===================================================================== *)
(** * Notions used in the statements *)
(* ===================================================================== *)

Module Notions.

Import PyStr Re Sqlmap Scenario.

(** ** Lines of a buffer *)

(** No character of [s] ends a line for [str.splitlines]. *)
Fixpoint no_break (s : string) : Prop :=
  match s with
  | EmptyString => True
  | String a t => is_linebreak a = false /\ no_break t
  end.

(** A buffer of 25 lines, read by a task that is still RUNNING. *)
Definition long_buffer : string :=
  String.concat EmptyString (repeat ("[INFO] testing" +:+ NL) 25).

(** A task whose scan is under way, with that buffer. *)
Definition running_task : task :=
  set_output (Some long_buffer)
    (mark_running (build_cmd url opts) (new_task url opts 0)).

(** ** The task along a scan *)

(** What the parser stores for a task: the findings of the staged
    extraction over its buffer, or nothing when there are none. *)
Definition stored_findings (t : task) : option (list finding) :=
  match output t with
  | Some o =>
      match extract_results o (critical_lines t) (vulnerabilities t) with
      | [] => None
      | fs => Some fs
      end
  | None => None
  end.

(** The fields of a task that reading a line leaves alone. *)
Definition same_header (t t' : task) : Prop :=
  status t' = status t /\ command t' = command t
  /\ results t' = results t /\ start_time t' = start_time t
  /\ return_code t' = return_code t /\ end_time t' = end_time t.

(** The keys that the reading loop appends to are present. *)
Definition streaming (t : task) : Prop :=
  is_Some (output t) /\ is_Some (critical_lines t)
  /\ is_Some (vulnerabilities t).

(** The invariant of a scan: where the coroutine is suspended fixes what
    the task dict shows. *)
Definition task_inv (pc : pc) (t : task) : Prop :=
  match pc with
  | AtStart =>
      status t = QUEUED /\ command t = None /\ results t = None
  | AtSpawn _ | AtStdout | AtStderr | AtWait =>
      status t = RUNNING /\ is_Some (command t) /\ results t = None
      /\ streaming t
  | Finished =>
      is_Some (command t)
      /\ ((status t = FAILED /\ results t = None)
          \/ (status t = COMPLETED /\ results t = stored_findings t))
  end.

(** The task is in the registry and fits the place of the coroutine. *)
Definition inv (task_id : string) (w : world) : Prop :=
  exists t, tasks w !! task_id = Some t /\ task_inv (at_pc w) t.

(** The coroutine is suspended at one of its awaits. *)
Definition awaiting (pc : pc) : Prop :=
  match pc with
  | AtSpawn _ | AtStdout | AtStderr | AtWait => True
  | AtStart | Finished => False
  end.

(** How one event moves the coroutine: not at all (the event belongs to
    the process or the clock), from the start to the spawn, or from one
    await to the next or to the end. *)
Definition pc_moves (pc pc' : pc) : Prop :=
  (pc = AtStart /\ exists cmd, pc' = AtSpawn cmd)
  \/ (awaiting pc /\ (awaiting pc' \/ pc' = Finished)).

(** One event, seen from the task. *)
Definition step_ok (task_id : string) (w w' : world) : Prop :=
  exists t t',
    tasks w !! task_id = Some t /\ tasks w' !! task_id = Some t'
    /\ task_inv (at_pc w) t /\ task_inv (at_pc w') t'
    /\ ((t' = t /\ at_pc w' = at_pc w) \/ pc_moves (at_pc w) (at_pc w')).

(** The arrows of the state machine. *)
Inductive transition : ScanStatus -> ScanStatus -> Prop :=
  | queued_running : transition QUEUED RUNNING
  | running_completed : transition RUNNING COMPLETED
  | running_failed : transition RUNNING FAILED.

(** How far along the state machine a status is. *)
Definition rank (s : ScanStatus) : nat :=
  match s with QUEUED => 0 | RUNNING => 1 | COMPLETED | FAILED => 2 end.

(** Once the coroutine waits for the exit of the process, both streams
    are at their end. *)
Definition drained (w : world) : Prop :=
  at_pc w = AtWait ->
  exists p, proc w = Some p
            /\ stdout_at_eof p = true /\ stderr_at_eof p = true.

(** The process has written one line on each stream; the coroutine is
    suspended on standard output. *)
Definition both_written : list event :=
  [Resume; Resume;
   WriteStdout "[INFO] testing connection to the target URL";
   WriteStderr "[WARNING] retrying"].

(** ** Text and patterns *)

(** Every character of [s] satisfies [q]. *)
Fixpoint all_chars (q : ascii -> Prop) (s : string) : Prop :=
  match s with
  | EmptyString => True
  | String a t => q a /\ all_chars q t
  end.

(** [s] is empty or starts with a character that [p] rejects. *)
Definition stops (p : ascii -> bool) (s : string) : Prop :=
  match s with
  | EmptyString => True
  | String a _ => p a = false
  end.

(** [s] holds a line feed. *)
Fixpoint has_nl (s : string) : Prop :=
  match s with
  | EmptyString => False
  | String a t => a = nl \/ has_nl t
  end.

(** [s] is empty or ends with a line feed: what follows it in a buffer
    starts a line. *)
Fixpoint ends_line (s : string) : Prop :=
  match s with
  | EmptyString => True
  | String a EmptyString => a = nl
  | String _ t => ends_line t
  end.

(** A pattern that can only match within one line: its literals hold no
    line feed and its classes reject it. *)
Fixpoint line_local (r : regex) : Prop :=
  match r with
  | RLit l => all_chars (fun a => a <> nl) l
  | RSeq r1 r2 => line_local r1 /\ line_local r2
  | RGroup _ r1 => line_local r1
  | RPlus _ c => c = CDot \/ c = CWord
  | RPlusG _ => False
  end.

(** The parts of a line [<method> parameter '<name>' is vulnerable<rest>]. *)
Definition method_ok (m : string) : Prop :=
  m <> EmptyString /\ all_chars (fun a => is_word a = true) m.

(** A character of a parameter name: no quote, no line feed. *)
Definition name_char (a : ascii) : Prop :=
  a <> "'"%char /\ a <> nl.

Definition name_ok (n : string) : Prop :=
  n <> EmptyString /\ all_chars name_char n.

Definition detail_ok (d : string) : Prop :=
  d <> EmptyString /\ all_chars (fun a => a <> nl) d.

(** The line itself. *)
Definition alt_line (m n d : string) : string :=
  m +:+ " parameter '" +:+ n +:+ "' is vulnerable" +:+ d.

(** The buffer the coroutine builds from lines of standard output. *)
Fixpoint buffer (lines : list string) : string :=
  match lines with
  | [] => EmptyString
  | l :: ls => l +:+ NL +:+ buffer ls
  end.

(** What is left of the buffer after a line: nothing, or a line feed
    and more. *)
Definition line_ends (after : string) : Prop :=
  match after with
  | EmptyString => True
  | String a _ => a = nl
  end.

(** The finding the fallback stage makes of such a line. *)
Definition finding_of_line (m n d : string) : finding :=
  {| parameter := Some n; type := m +:+ " - " +:+ "is vulnerable" +:+ d;
     title := None; payload := None; info := None |}.

(** ** The stages of the extraction *)

(** What the merge of stage 5 appends to [results]. *)
Fixpoint added_vulnerabilities (results : list finding)
    (vulns : list live_vuln) : list finding :=
  match vulns with
  | [] => []
  | vuln :: vs =>
      if has_parameter (v_parameter vuln) results
      then added_vulnerabilities results vs
      else finding_of_vuln vuln
           :: added_vulnerabilities (results ++ [finding_of_vuln vuln]) vs
  end.

(** The findings each of the five stages contributes, in order. *)
Definition stages (output : string) (crit : option (list string))
    (vulns : option (list live_vuln)) : list (list finding) :=
  let s1 := injection_findings output in
  let s2 := match s1 with [] => alt_findings output | _ => [] end in
  let s3 := dbms_findings output in
  let s4 := match crit with Some lines => critical_findings lines | None => [] end in
  let s5 := match vulns with
            | Some vs => added_vulnerabilities (s1 ++ s2 ++ s3 ++ s4) vs
            | None => []
            end in
  [s1; s2; s3; s4; s5].

(** The deduplication key of the design document. *)
Definition key (f : finding) : option string * string :=
  (parameter f, type f).

(** ** Buffers and findings of the examples *)

(** The buffer of one injection point followed by the name of the
    database system, and two vulnerabilities detected while streaming:
    one for the parameter of the injection point, one for another. *)
Definition block_buffer : string :=
  buffer (block ++ ["back-end DBMS: MySQL >= 5.0.12"]).

Definition live : list live_vuln :=
  [{| v_parameter := "id"; v_type := "boolean-based blind" |};
   {| v_parameter := "q"; v_type := "time-based blind" |}].

Definition block_finding : finding :=
  {| parameter := Some "id"; type := "boolean-based blind";
     title := Some "AND boolean-based blind - WHERE or HAVING clause";
     payload := Some "id=1 AND 5049=5049"; info := None |}.

Definition q_finding : finding :=
  {| parameter := Some "q"; type := "time-based blind";
     title := None; payload := None; info := None |}.

(** A line that sqlmap prints once per confirmation, here twice in the
    buffer. *)
Definition vulnerable_line : string :=
  "GET parameter 'id' is vulnerable. Do you want to keep testing the others (if any)? [y/N] N".

Definition vulnerable_finding : finding :=
  {| parameter := Some "id";
     type := "GET - is vulnerable. Do you want to keep testing the others (if any)? [y/N] N";
     title := None; payload := None; info := None |}.

(** A buffer with a line of the fallback shape between two others. *)
Definition log_before : string := "[INFO] testing connection to the target URL" +:+ NL.
Definition log_after : string := NL +:+ "[INFO] fetched data logged to text files" +:+ NL.
Definition log_buffer : string :=
  log_before
  +:+ alt_line "GET" "id" ". Do you want to keep testing the others (if any)? [y/N] N"
  +:+ log_after.

(** ** The record of a scan, in full *)

(** No key of the end of a scan is set. *)
Definition unfinished (t : task) : Prop :=
  return_code t = None /\ end_time t = None /\ error t = None.

(** A process that has exited has closed both its streams. *)
Definition process_ok (p : process) : Prop :=
  is_Some (exit_status p) -> stdout_eof p = true /\ stderr_eof p = true.

(** [l] is a critical line of the buffer [b]: it holds the severity
    marker and stands in [b], followed by a line feed. *)
Definition critical_in (b : option string) (l : string) : Prop :=
  contains "[CRITICAL]" l = true
  /\ exists before after, b = Some (before +:+ l +:+ NL +:+ after).

(** Every recorded critical line is a critical line of the buffer. *)
Definition critical_ok (t : task) : Prop :=
  match critical_lines t with
  | Some cl => Forall (critical_in (output t)) cl
  | None => True
  end.

(** The command line recorded for a scan of [u] with the options [os]. *)
Definition command_of (u : string) (os : list (string * pyval)) : string :=
  join " " (build_cmd u os).

(** How a finished scan ended: the process exited with status 0; it
    exited with another status; or an awaited call raised. *)
Definition ended (t : task) : Prop :=
  (status t = COMPLETED /\ return_code t = Some 0%Z /\ error t = None)
  \/ (status t = FAILED /\ error t = None
      /\ exists rc, rc <> 0%Z /\ return_code t = Some rc)
  \/ (status t = FAILED /\ return_code t = None /\ is_Some (error t)).

(** What the task shows at each place of the coroutine. *)
Definition phase (u : string) (os : list (string * pyval)) (now : Z)
    (w : world) (t : task) : Prop :=
  match at_pc w with
  | AtStart =>
      proc w = None /\ status t = QUEUED /\ command t = None
      /\ output t = Some EmptyString /\ unfinished t
  | AtSpawn cmd =>
      proc w = None /\ cmd = build_cmd u os /\ status t = RUNNING
      /\ command t = Some (command_of u os) /\ unfinished t /\ streaming t
  | AtStdout | AtStderr | AtWait =>
      (exists p, proc w = Some p /\ process_ok p) /\ status t = RUNNING
      /\ command t = Some (command_of u os) /\ unfinished t /\ streaming t
  | Finished =>
      command t = Some (command_of u os)
      /\ (exists e, end_time t = Some e /\ (now <= e <= clock w)%Z)
      /\ ended t
  end.

(** The invariant of a scan of [u] with the options [os] submitted at
    [now] under [task_id]. *)
Definition scan_inv (u : string) (os : list (string * pyval))
    (task_id : string) (now : Z) (w : world) : Prop :=
  exists t,
    tasks w !! task_id = Some t
    /\ target_url t = u /\ options t = os /\ start_time t = Some now
    /\ (now <= clock w)%Z
    /\ is_Some (output t) /\ critical_ok t
    /\ phase u os now w t.

(** A scan whose process prints two lines on its standard error and
    exits with status 2, up to the moment the coroutine waits for the
    exit. *)
Definition failing_scan : list event :=
  [Resume; Resume;
   WriteStderr "Usage: python sqlmap [options]";
   WriteStderr "sqlmap: error: missing a mandatory option  ";
   Exit 2] ++ resumes 4.

(** Lines of a scan that cannot reach its target. *)
Definition critical_log : list string :=
  ["[12:00:01] [INFO] testing connection to the target URL";
   "[12:00:05] [CRITICAL] unable to connect";
   "[12:00:05] [WARNING] HTTP error codes detected"].

(** The buffer [b'] is the buffer [b] with text appended. *)
Definition extends (b b' : option string) : Prop :=
  exists o added, b = Some o /\ b' = Some (o +:+ added).

(** What an entry of the options says about [data]. *)
Definition from_data (data : list string) (k : string) (v : pyval) : Prop :=
  In ("--" +:+ k) data
  /\ (v = VBool true
      \/ exists s, v = VStr s /\ In s data /\ startswith s "--" = false).

(** What reading a line does to the task, field by field. *)
Definition line_effect (t t' : task) : Prop :=
  status t' = status t /\ target_url t' = target_url t
  /\ options t' = options t /\ start_time t' = start_time t
  /\ results t' = results t /\ command t' = command t
  /\ return_code t' = return_code t /\ end_time t' = end_time t
  /\ error t' = error t
  /\ extends (output t) (output t')
  /\ streaming t'
  /\ (critical_ok t -> critical_ok t').

(** The coroutine is in its reading loop or waits for the exit. *)
Definition reading (pc : pc) : Prop :=
  pc = AtStdout \/ pc = AtStderr \/ pc = AtWait.

(** One event, seen from the whole record. *)
Definition scan_step (u : string) (os : list (string * pyval))
    (task_id : string) (now : Z) (w w' : world) : Prop :=
  scan_inv u os task_id now w'
  /\ (clock w <= clock w')%Z
  /\ exists t t',
       tasks w !! task_id = Some t /\ tasks w' !! task_id = Some t'
       /\ extends (output t) (output t').

(** The process has exited with status [rc]: both streams are closed
    (lines may still wait in them). *)
Definition exited (rc : Z) (w : world) : Prop :=
  exists p,
    proc w = Some p /\ stdout_eof p = true /\ stderr_eof p = true
    /\ exit_status p = Some rc.

(** How many times the coroutine has to be resumed, at most, to end
    once the process has exited: two awaits for each line still in a
    stream, and the last turns of the loop. *)
Definition resumes_left (w : world) : nat :=
  match proc w with
  | None => 0
  | Some p =>
      let n := length (stdout_buf p) + length (stderr_buf p) in
      match at_pc w with
      | AtStdout => 2 * n + match stdout_buf p with [] => 3 | _ => 1 end
      | AtStderr => 2 * n + 2
      | AtWait => 1
      | _ => 0
      end
  end.

(** A word of [str.split()]: not empty, no white space in it. *)
Definition token (m : string) : Prop :=
  m <> EmptyString /\ all_chars (fun a => is_space a = false) m.

End Notions.

(* ===================================================================== *)
(** * Properties *)
(* ===================================================================== *)

Module SqlmapSpec.

Import PyStr Re Sqlmap Scenario Notions.

(** ** The command builder *)

(** C10: an option whose value is the boolean false is not left out of
    the command line: it takes the branch of the numeric values and
    appears as [--name=False], both in the argument vector handed to the
    subprocess and, between spaces, in the command the task records when
    the coroutine first runs. *)
Theorem false_option_is_rendered
    (cap : nat) (task_id target_url name : string)
    (options : list (string * pyval)) (w : world) (t : task) :
  In (name, VBool false) options ->
  at_pc w = AtStart ->
  tasks w !! task_id = Some t ->
  In ("--" +:+ name +:+ "=False") (build_cmd target_url options)
  /\ exists w' t',
       step cap task_id target_url options w Resume = Some w'
       /\ at_pc w' = AtSpawn (build_cmd target_url options)
       /\ tasks w' !! task_id = Some t'
       /\ command t' = Some (join " " (build_cmd target_url options)).
Proof.
  intros Hin Hpc Ht. split.
  - unfold build_cmd. apply in_or_app. right.
    apply in_flat_map. exists (name, VBool false). split; [exact Hin|].
    simpl. left. reflexivity.
  - cbn [step]. unfold resume. rewrite Hpc, Ht.
    eexists. eexists. split; [reflexivity|]. cbn [at_pc tasks].
    split; [reflexivity|]. split; [apply lookup_insert_eq|].
    destruct t; reflexivity.
Qed.

Lemma false_option_is_rendered_witness :
  let options := [("level", VInt 3); ("forms", VBool false)] in
  let w := submit "http://h/?id=1" options "t1" ∅ 0 in
  In "--forms=False" (build_cmd "http://h/?id=1" options)
  /\ exists w' t',
       step 1 "t1" "http://h/?id=1" options w Resume = Some w'
       /\ at_pc w' = AtSpawn (build_cmd "http://h/?id=1" options)
       /\ tasks w' !! "t1" = Some t'
       /\ command t' = Some (join " " (build_cmd "http://h/?id=1" options)).
Proof.
  apply (false_option_is_rendered 1 "t1" "http://h/?id=1" "forms"
           [("level", VInt 3); ("forms", VBool false)]
           (submit "http://h/?id=1"
              [("level", VInt 3); ("forms", VBool false)] "t1" ∅ 0)
           (new_task "http://h/?id=1"
              [("level", VInt 3); ("forms", VBool false)] 0)).
  - simpl. right. left. reflexivity.
  - reflexivity.
  - apply lookup_insert_eq.
Defined.

(** ** The parser *)

Lemma parse_task_fixed (t : task) : parse_task (parse_task t) = parse_task t.
Proof.
  unfold parse_task at 2 3.
  destruct (output t) as [out|] eqn:Hout.
  - destruct (extract_results out (critical_lines t) (vulnerabilities t))
      as [|f fs] eqn:Hres.
    + unfold parse_task. rewrite Hout, Hres. reflexivity.
    + unfold parse_task.
      destruct t; cbn in *. rewrite Hout, Hres. reflexivity.
  - unfold parse_task. rewrite Hout. reflexivity.
Qed.

Lemma parse_insert (task_id : string) (t : task) (m : gmap string task) :
  parse_scan_results_from_output task_id (<[task_id := t]> m)
  = <[task_id := parse_task t]> m.
Proof.
  unfold parse_scan_results_from_output.
  rewrite lookup_insert_eq. apply insert_insert_eq.
Qed.

(** C6: extraction is idempotent.  Running the parser again on the
    registry it has just updated (same buffer, same critical lines, same
    live-detected vulnerabilities) changes nothing: the stored findings
    are those of the first run. *)
Theorem extraction_idempotent (task_id : string) (registry : gmap string task) :
  parse_scan_results_from_output task_id
    (parse_scan_results_from_output task_id registry)
  = parse_scan_results_from_output task_id registry.
Proof.
  unfold parse_scan_results_from_output at 2 3.
  destruct (registry !! task_id) as [t|] eqn:Ht.
  - rewrite parse_insert, parse_task_fixed. reflexivity.
  - unfold parse_scan_results_from_output. rewrite Ht. reflexivity.
Qed.

(** ** The status query *)

Lemma get_scan_status_known (task_id : string) (now : Z)
    (registry : gmap string task) (t : task) :
  registry !! task_id = Some t ->
  get_scan_status task_id now registry
  = (inr (status_of_task task_id now t), registry).
Proof. intros H. unfold get_scan_status. rewrite H. reflexivity. Qed.

(** C9, as the code has it: for every task with a recorded start time
    the status query reports the elapsed time from [start_time] to the
    current time, whatever the state of the task; [end_time] is not
    consulted. *)
Theorem elapsed_time_from_start_to_now
    (task_id : string) (now start : Z)
    (registry : gmap string task) (t : task) :
  registry !! task_id = Some t ->
  start_time t = Some start ->
  exists r,
    fst (get_scan_status task_id now registry) = inr r
    /\ r_elapsed_time r = Some (format_elapsed (now - start)).
Proof.
  intros Ht Hs. rewrite (get_scan_status_known _ _ _ _ Ht).
  eexists. split; [reflexivity|].
  unfold status_of_task. cbn [r_elapsed_time]. rewrite Hs. reflexivity.
Qed.

Lemma elapsed_time_from_start_to_now_witness :
  exists r,
    fst (get_scan_status "t1" 250 {[ "t1" := new_task url opts 100 ]}) = inr r
    /\ r_elapsed_time r = Some (format_elapsed (250 - 100)).
Proof.
  apply (elapsed_time_from_start_to_now "t1" 250 100
           {[ "t1" := new_task url opts 100 ]} (new_task url opts 100)).
  - apply lookup_singleton_eq.
  - reflexivity.
Defined.

(** C9 as stated fails for a task that has reached a terminal state.
    The scan below started at 0 and ended, COMPLETED, at 5.00 s; polled
    at 90.00 s the status query answers 90.00 s, not the 5.00 s that lie
    between [start_time] and [end_time]. *)
Lemma elapsed_time_ignores_end_time :
  exists t r,
    final 8 (silent 0) = Some t
    /\ status t = COMPLETED
    /\ start_time t = Some 0%Z /\ end_time t = Some 500%Z
    /\ fst (get_scan_status "t1" 9000 {[ "t1" := t ]}) = inr r
    /\ r_elapsed_time r = Some "90.00s"
    /\ r_elapsed_time r <> Some (format_elapsed (500 - 0)).
Proof.
  eexists. eexists. split; [vm_compute; reflexivity|].
  repeat (split; [reflexivity|]).
  vm_compute. discriminate.
Qed.

(** *** The view of the buffer *)

Lemma length_last_n {A} (n : nat) (l : list A) : length (last_n n l) <= n.
Proof. unfold last_n. rewrite length_drop. lia. Qed.

Lemma length_last_n_min {A} (n : nat) (l : list A) :
  length (last_n n l) = Nat.min n (length l).
Proof. unfold last_n. rewrite length_drop. lia. Qed.

Lemma last_n_suffix {A} (n : nat) (l : list A) :
  exists skipped, l = skipped ++ last_n n l.
Proof.
  exists (take (length l - n) l). unfold last_n.
  symmetry. apply take_drop.
Qed.

Lemma splitlines_no_break (s : string) :
  forall b, Forall no_break (splitlines_from b s).
Proof.
  induction s as [|a t IH]; intros b; cbn; [constructor|].
  destruct (b && Ascii.eqb a nl); [apply IH|].
  destruct (is_linebreak a) eqn:Ha.
  - constructor; [exact I|apply IH].
  - specialize (IH false). destruct (splitlines_from false t) as [|l ls].
    + constructor; [|constructor]. cbn. auto.
    + inversion IH; subst. constructor; [|assumption]. cbn. auto.
Qed.

Lemma splitlines_line (l : string) :
  no_break l -> length (splitlines_from false l) <= 1.
Proof.
  induction l as [|a t IH]; cbn; [lia|]. intros [Ha Ht]. rewrite Ha.
  specialize (IH Ht). destruct (splitlines_from false t) as [|x xs]; cbn in *; lia.
Qed.

Lemma splitlines_line_then (l rest : string) :
  no_break l ->
  splitlines_from false (l +:+ String nl rest)
  = l :: splitlines_from false rest.
Proof.
  induction l as [|a t IH]; simpl.
  - reflexivity.
  - intros [Ha Ht]. rewrite Ha, (IH Ht). reflexivity.
Qed.

Lemma splitlines_join (ls : list string) :
  Forall no_break ls ->
  length (splitlines (join NL ls)) <= length ls.
Proof.
  unfold splitlines, join.
  induction ls as [|l ls IH]; intros Hall; [cbn; lia|].
  inversion Hall as [|? ? Hl Hls]; subst.
  destruct ls as [|l2 ls].
  - cbn [String.concat length]. apply splitlines_line; assumption.
  - change (String.concat NL (l :: l2 :: ls))
      with (l +:+ String nl (String.concat NL (l2 :: ls))).
    rewrite splitlines_line_then by assumption.
    cbn [length] in *. specialize (IH Hls). lia.
Qed.

(** C8: for a RUNNING task the status query returns as [partial_output]
    the last 20 lines of the buffer, or all of them when the buffer
    holds fewer, however many the buffer holds: the view is the
    buffer's lines without a leading part, it has exactly as many
    lines as the smaller of 20 and the number of lines of the buffer,
    and the text returned splits into no more than 20 lines.  Outside
    RUNNING no such view is returned.  The query hands back the
    registry it was given, so the stored buffer is not truncated. *)
Theorem partial_output_is_a_bounded_view
    (task_id : string) (now : Z) (registry : gmap string task) (t : task) :
  registry !! task_id = Some t ->
  exists r,
    get_scan_status task_id now registry = (inr r, registry)
    /\ (status t <> RUNNING -> r_partial_output r = None)
    /\ (forall o, status t = RUNNING -> output t = Some o ->
          exists view skipped,
            r_partial_output r = Some (join NL view)
            /\ splitlines o = skipped ++ view
            /\ length view = Nat.min 20 (length (splitlines o))
            /\ length view <= 20
            /\ length (splitlines (join NL view)) <= 20).
Proof.
  intros Ht. rewrite (get_scan_status_known _ _ _ _ Ht).
  eexists. split; [reflexivity|]. unfold status_of_task; cbn. split.
  - intros Hs. destruct (status t); try reflexivity. congruence.
  - intros o -> ->.
    destruct (last_n_suffix 20 (splitlines o)) as [skipped Hsk].
    exists (last_n 20 (splitlines o)), skipped.
    split; [reflexivity|]. split; [exact Hsk|].
    assert (Hlen := length_last_n 20 (splitlines o)).
    split; [exact (length_last_n_min 20 (splitlines o))|].
    split; [exact Hlen|].
    etransitivity; [apply splitlines_join|exact Hlen].
    unfold last_n. apply Forall_drop. apply splitlines_no_break.
Qed.

Lemma partial_output_is_a_bounded_view_witness :
  length (splitlines long_buffer) = 25
  /\ exists r,
    get_scan_status "t1" 100 {[ "t1" := running_task ]}
    = (inr r, {[ "t1" := running_task ]})
    /\ (status running_task <> RUNNING -> r_partial_output r = None)
    /\ (forall o, status running_task = RUNNING ->
          output running_task = Some o ->
          exists view skipped,
            r_partial_output r = Some (join NL view)
            /\ splitlines o = skipped ++ view
            /\ length view = Nat.min 20 (length (splitlines o))
            /\ length view <= 20
            /\ length (splitlines (join NL view)) <= 20).
Proof.
  split; [reflexivity|].
  apply (partial_output_is_a_bounded_view "t1" 100
           {[ "t1" := running_task ]} running_task).
  apply lookup_singleton_eq.
Defined.

(** ** The coroutine *)

Lemma on_stdout_line_ok (line : string) (t : task) :
  streaming t ->
  exists t', on_stdout_line line t = Ok t' /\ same_header t t' /\ streaming t'.
Proof.
  intros ([o Ho] & [cl Hcl] & [vs Hvs]).
  destruct t; cbn in Ho, Hcl, Hvs; subst.
  unfold on_stdout_line, same_header, streaming; cbn -[Nat.ltb].
  destruct (contains "[CRITICAL]" (rstrip line)); cbn -[Nat.ltb];
    destruct (contains "is vulnerable" (rstrip line)
              && contains "parameter" (rstrip line)); cbn -[Nat.ltb];
    try destruct (3 <? length (split (rstrip line)));
    eexists; (split; [reflexivity|]); cbn; eauto 10.
Qed.

Lemma on_stderr_line_ok (line : string) (t : task) :
  streaming t ->
  exists t', on_stderr_line line t = Ok t' /\ same_header t t' /\ streaming t'.
Proof.
  intros ([o Ho] & [cl Hcl] & [vs Hvs]).
  destruct t; cbn in Ho, Hcl, Hvs; subst.
  unfold on_stderr_line, same_header, streaming; cbn.
  destruct errors0; cbn; eexists; (split; [reflexivity|]); cbn; eauto 10.
Qed.

Lemma inv_submit url options task_id registry now :
  inv task_id (submit url options task_id registry now).
Proof.
  exists (new_task url options now). split; [apply lookup_insert_eq|].
  cbn. auto.
Qed.

Lemma task_inv_awaiting (pc : pc) (t : task) :
  pc <> AtStart -> pc <> Finished ->
  task_inv pc t <->
  (status t = RUNNING /\ is_Some (command t) /\ results t = None
   /\ streaming t).
Proof. destruct pc; cbn; intuition congruence. Qed.

Lemma task_inv_failed (e : string) (now : Z) (t : task) :
  is_Some (command t) -> results t = None ->
  task_inv Finished
    (set_end_time (Some now) (set_error (Some e) (set_status FAILED t))).
Proof. destruct t; cbn. intros Hc Hr. split; [exact Hc|]. left. auto. Qed.

Lemma task_inv_completed (rc now : Z) (t : task) :
  is_Some (command t) -> results t = None ->
  task_inv Finished
    (set_end_time (Some now) (set_return_code (Some rc)
       (parse_task (set_status COMPLETED t)))).
Proof.
  intros Hc Hr. destruct t; cbn in *. subst.
  unfold parse_task, stored_findings; cbn.
  destruct output0 as [o|]; cbn.
  - destruct (extract_results o critical_lines0 vulnerabilities0) eqn:He;
      cbn; rewrite ?He; (split; [exact Hc|]); right; auto.
  - split; [exact Hc|]. right. auto.
Qed.

Lemma finish_task (task_id : string) (rc now : Z)
    (m : gmap string task) (t : task) :
  m !! task_id = Some t ->
  finish task_id rc now m !! task_id
  = Some (set_end_time (Some now) (set_return_code (Some rc)
            (if (rc =? 0)%Z then parse_task (set_status COMPLETED t)
             else set_status FAILED t))).
Proof.
  intros Ht. unfold finish.
  rewrite !lookup_alter_eq.
  destruct (rc =? 0)%Z.
  - unfold parse_scan_results_from_output.
    rewrite !lookup_alter_eq, Ht. cbn. rewrite lookup_insert_eq. reflexivity.
  - rewrite lookup_alter_eq, Ht. reflexivity.
Qed.

Lemma settle_spec task_id o p next (w : world) t :
  task_inv AtStdout t ->
  (exists t', o = Ok t' /\ same_header t t' /\ streaming t') ->
  awaiting next ->
  exists t', tasks (settle task_id o p next w) !! task_id = Some t'
             /\ at_pc (settle task_id o p next w) = next
             /\ task_inv next t'.
Proof.
  intros (Hs & Hc & Hr & _) (t' & -> & Hh & Hst) Hn.
  exists t'. cbn. rewrite lookup_insert_eq. split; [reflexivity|].
  split; [reflexivity|].
  destruct Hh as (Hs' & Hc' & Hr' & _).
  apply task_inv_awaiting; [destruct next; cbn in Hn; congruence ..|].
  rewrite Hs', Hc', Hr'. auto.
Qed.

Lemma step_ok_same task_id (w w' : world) t :
  tasks w !! task_id = Some t -> task_inv (at_pc w) t ->
  tasks w' = tasks w -> at_pc w' = at_pc w ->
  step_ok task_id w w'.
Proof.
  intros Ht Hinv Hm Hpc. exists t, t. rewrite Hm, Hpc. auto 10.
Qed.

Lemma step_ok_await task_id (w w' : world) t t' :
  tasks w !! task_id = Some t -> task_inv (at_pc w) t ->
  awaiting (at_pc w) -> awaiting (at_pc w') ->
  tasks w' !! task_id = Some t' ->
  same_header t t' -> streaming t' ->
  step_ok task_id w w'.
Proof.
  intros Ht Hinv Ha Ha' Ht' (Hs & Hc & Hr & _) Hst. exists t, t'.
  repeat (split; [assumption|]). split.
  - assert (H := Hinv).
    apply task_inv_awaiting in H;
      [|destruct (at_pc w); cbn in Ha; congruence ..].
    apply task_inv_awaiting;
      [destruct (at_pc w'); cbn in Ha'; congruence ..|].
    rewrite Hs, Hc, Hr. destruct H as (? & ? & ? & _). auto.
  - right. right. auto.
Qed.

Lemma step_ok_finished task_id (w w' : world) t t' :
  tasks w !! task_id = Some t -> task_inv (at_pc w) t ->
  awaiting (at_pc w) -> at_pc w' = Finished ->
  tasks w' !! task_id = Some t' ->
  task_inv Finished t' ->
  step_ok task_id w w'.
Proof.
  intros Ht Hinv Ha Hpc Ht' Hinv'. exists t, t'. rewrite Hpc.
  repeat (split; [assumption|]). right. right. auto.
Qed.

Lemma same_header_refl t : same_header t t.
Proof. unfold same_header. auto 10. Qed.

Local Ltac close_step :=
  first [ assumption | exact I | apply lookup_insert_eq
        | apply same_header_refl | idtac ].

Lemma resume_spec task_id url options (w w' : world) :
  inv task_id w ->
  resume task_id url options w = Some w' ->
  step_ok task_id w w'.
Proof.
  intros (t & Ht & Hinv) Hstep. unfold resume in Hstep.
  destruct (at_pc w) eqn:Hpc.
  - (* AtStart *)
    rewrite Ht in Hstep. injection Hstep as <-.
    exists t, (mark_running (build_cmd url options) t). cbn.
    rewrite lookup_insert_eq, Hpc.
    repeat (split; [first [assumption | reflexivity]|]). split.
    + destruct Hinv as (_ & _ & Hr). destruct t; cbn in *.
      unfold streaming; cbn. eauto 10.
    + right. left. eauto.
  - (* AtSpawn *)
    destruct (proc w); [discriminate|]. injection Hstep as <-.
    eapply (step_ok_await task_id w _ t t); cbn; rewrite ?Hpc; cbn;
      close_step. apply Hinv.
  - (* AtStdout *)
    assert (Hst : streaming t) by apply Hinv.
    destruct (proc w) as [p|]; [|discriminate].
    destruct (stdout_buf p) as [|l rest].
    + destruct (stdout_eof p); [|discriminate]. injection Hstep as <-.
      eapply (step_ok_await task_id w _ t t); cbn; rewrite ?Hpc; cbn;
        close_step.
    + rewrite Ht in Hstep. injection Hstep as <-.
      destruct (on_stdout_line_ok l t Hst) as (t' & -> & Hh & Hst').
      eapply (step_ok_await task_id w _ t t'); cbn; rewrite ?Hpc; cbn;
        close_step.
  - (* AtStderr *)
    assert (Hst : streaming t) by apply Hinv.
    destruct (proc w) as [p|]; [|discriminate].
    destruct (stderr_buf p) as [|l rest].
    + destruct (stderr_eof p); [|discriminate]. injection Hstep as <-.
      eapply (step_ok_await task_id w _ t t); cbn; rewrite ?Hpc; cbn;
        close_step.
      case_match; exact I.
    + rewrite Ht in Hstep. injection Hstep as <-.
      destruct (on_stderr_line_ok l t Hst) as (t' & -> & Hh & Hst').
      eapply (step_ok_await task_id w _ t t'); cbn; rewrite ?Hpc; cbn;
        close_step.
      case_match; exact I.
  - (* AtWait *)
    destruct (proc w) as [p|]; [|discriminate].
    destruct (exit_status p) as [rc|]; [|discriminate].
    injection Hstep as <-.
    eapply (step_ok_finished task_id w _ t); cbn; rewrite ?Hpc; cbn; auto.
    { apply (finish_task _ _ _ _ _ Ht). }
    destruct Hinv as (Hs & Hc & Hr & Hst).
    destruct (rc =? 0)%Z.
    + apply task_inv_completed; assumption.
    + destruct t; cbn in *. split; [exact Hc|]. left. auto.
  - discriminate.
Qed.

Lemma throw_spec task_id (e : string) (w w' : world) :
  inv task_id w ->
  throw task_id e w = Some w' ->
  step_ok task_id w w'.
Proof.
  intros (t & Ht & Hinv) Hstep. unfold throw in Hstep.
  assert (Haw : awaiting (at_pc w)).
  { destruct (at_pc w); try discriminate; exact I. }
  assert (Hw : w' = {| tasks := on_exception task_id e (clock w) (tasks w);
                       clock := clock w; proc := proc w;
                       at_pc := Finished |}).
  { destruct (at_pc w); try discriminate; congruence. }
  subst w'.
  eapply (step_ok_finished task_id w _ t); cbn; auto.
  - unfold on_exception. rewrite lookup_alter_eq, Ht. reflexivity.
  - apply task_inv_awaiting in Hinv;
      [|destruct (at_pc w); cbn in Haw; congruence ..].
    destruct Hinv as (_ & Hc & Hr & _).
    apply task_inv_failed; assumption.
Qed.

Lemma step_spec cap task_id url options (w w' : world) (e : event) :
  inv task_id w ->
  step cap task_id url options w e = Some w' ->
  step_ok task_id w w'.
Proof.
  intros Hinv Hstep.
  destruct e; cbn [step] in Hstep;
    [ eapply resume_spec; eassumption
    | eapply throw_spec; eassumption
    | .. ];
    destruct Hinv as (t & Ht & Hinv);
    unfold running in Hstep;
    repeat (case_match; try discriminate);
    injection Hstep as <-;
    apply (step_ok_same task_id _ _ t); auto.
Qed.

Lemma step_inv cap task_id url options (w w' : world) (e : event) :
  inv task_id w ->
  step cap task_id url options w e = Some w' ->
  inv task_id w'.
Proof.
  intros Hinv Hstep.
  destruct (step_spec _ _ _ _ _ _ _ Hinv Hstep) as (t & t' & _ & Ht' & _ & H & _).
  exists t'. auto.
Qed.

Lemma run_inv cap task_id url options (evs : list event) :
  forall w w', inv task_id w ->
  run cap task_id url options evs w = Some w' ->
  inv task_id w'.
Proof.
  induction evs as [|e evs IH]; intros w w' Hinv Hrun; cbn in Hrun.
  - congruence.
  - destruct (step cap task_id url options w e) as [w1|] eqn:Hstep;
      [|discriminate].
    eapply IH; [|eassumption]. eapply step_inv; eassumption.
Qed.

(** ** The states of a task *)

Lemma transition_rank s s' : transition s s' -> rank s < rank s'.
Proof. destruct 1; cbn; lia. Qed.

Lemma rtc_transition_rank s s' :
  rtc transition s s' -> s = s' \/ rank s < rank s'.
Proof.
  induction 1 as [|s1 s2 s3 H12 _ IH]; [left; reflexivity|].
  right. apply transition_rank in H12. destruct IH as [->|IH]; lia.
Qed.

Lemma no_way_back s s' :
  rtc transition s s' -> rtc transition s' s -> s' = s.
Proof.
  intros H1 H2. apply rtc_transition_rank in H1, H2.
  destruct H1 as [->|H1]; [reflexivity|].
  destruct H2 as [->|H2]; [reflexivity|]. lia.
Qed.

Lemma step_ok_status task_id (w w' : world) :
  step_ok task_id w w' ->
  exists t t',
    tasks w !! task_id = Some t /\ tasks w' !! task_id = Some t'
    /\ (status t' = status t \/ transition (status t) (status t')).
Proof.
  intros (t & t' & Ht & Ht' & Hi & Hi' & Hmove). exists t, t'.
  split; [exact Ht|]. split; [exact Ht'|].
  destruct Hmove as [[-> _]|[[Hpc [cmd Hpc']]|[Ha Ha']]]; [left; reflexivity|..].
  - rewrite Hpc in Hi. rewrite Hpc' in Hi'.
    destruct Hi as (-> & _). destruct Hi' as (-> & _).
    right. constructor.
  - apply task_inv_awaiting in Hi;
      [|destruct (at_pc w); cbn in Ha; congruence ..].
    destruct Hi as (-> & _).
    destruct Ha' as [Ha'|Hfin].
    + apply task_inv_awaiting in Hi';
        [|destruct (at_pc w'); cbn in Ha'; congruence ..].
      destruct Hi' as (-> & _). left. reflexivity.
    + rewrite Hfin in Hi'.
      destruct Hi' as (_ & [(-> & _)|(-> & _)]); right; constructor.
Qed.

Lemma run_status cap task_id url options (evs : list event) :
  forall w w', inv task_id w ->
  run cap task_id url options evs w = Some w' ->
  exists t t',
    tasks w !! task_id = Some t /\ tasks w' !! task_id = Some t'
    /\ rtc transition (status t) (status t').
Proof.
  induction evs as [|e evs IH]; intros w w' Hinv Hrun; cbn in Hrun.
  - injection Hrun as <-. destruct Hinv as (t & Ht & _).
    exists t, t. auto using rtc_refl.
  - destruct (step cap task_id url options w e) as [w1|] eqn:Hstep;
      [|discriminate].
    destruct (step_ok_status _ _ _ (step_spec _ _ _ _ _ _ _ Hinv Hstep))
      as (t & t1 & Ht & Ht1 & H01).
    destruct (IH w1 w' (step_inv _ _ _ _ _ _ _ Hinv Hstep) Hrun)
      as (t1' & t' & Ht1' & Ht' & H1).
    rewrite Ht1 in Ht1'. injection Ht1' as <-.
    exists t, t'. split; [exact Ht|]. split; [exact Ht'|].
    destruct H01 as [Heq|Htr].
    + rewrite <- Heq. exact H1.
    + eapply rtc_l; eassumption.
Qed.

(** C3: the status of a task only follows
    QUEUED -> RUNNING -> COMPLETED or FAILED.  At any point [w] of any
    scan, started by a submission: the task was stored as QUEUED; one
    event either leaves the status as it is or takes exactly one arrow of
    the state machine, so that no state is skipped; whatever a later poll
    sees is reached from what an earlier one saw along the arrows, and
    never the other way round; and a spawn that fails finds the task
    RUNNING and leaves it FAILED. *)
Theorem status_follows_state_machine
    (cap : nat) (task_id url : string) (options : list (string * pyval))
    (registry : gmap string task) (now : Z) (evs : list event) (w : world) :
  run cap task_id url options evs (submit url options task_id registry now)
    = Some w ->
  (exists t0, tasks (submit url options task_id registry now) !! task_id
              = Some t0 /\ status t0 = QUEUED)
  /\ (forall e w', step cap task_id url options w e = Some w' ->
        exists t t',
          tasks w !! task_id = Some t /\ tasks w' !! task_id = Some t'
          /\ (status t' = status t \/ transition (status t) (status t')))
  /\ (forall evs' w', run cap task_id url options evs' w = Some w' ->
        exists t t',
          tasks w !! task_id = Some t /\ tasks w' !! task_id = Some t'
          /\ rtc transition (status t) (status t')
          /\ (rtc transition (status t') (status t) -> status t' = status t))
  /\ (forall cmd e, at_pc w = AtSpawn cmd ->
        exists w' t t',
          step cap task_id url options w (Throw e) = Some w'
          /\ tasks w !! task_id = Some t /\ tasks w' !! task_id = Some t'
          /\ status t = RUNNING /\ status t' = FAILED).
Proof.
  intros Hrun.
  assert (Hinv : inv task_id w).
  { eapply run_inv; [apply inv_submit|exact Hrun]. }
  split; [|split; [|split]].
  - eexists. split; [apply lookup_insert_eq|reflexivity].
  - intros e w' Hstep. apply step_ok_status. eapply step_spec; eassumption.
  - intros evs' w' Hrun'.
    destruct (run_status _ _ _ _ _ _ _ Hinv Hrun') as (t & t' & Ht & Ht' & H).
    exists t, t'. repeat (split; [assumption|]).
    intros Hback. eapply no_way_back; eassumption.
  - intros cmd e Hpc. destruct Hinv as (t & Ht & Hi).
    rewrite Hpc in Hi. destruct Hi as (Hs & _).
    eexists. exists t. eexists. cbn [step]. unfold throw. rewrite Hpc.
    split; [reflexivity|]. split; [exact Ht|]. cbn. unfold on_exception.
    rewrite lookup_alter_eq, Ht. cbn. split; [reflexivity|].
    split; [exact Hs|]. destruct t; reflexivity.
Qed.

Lemma status_follows_state_machine_witness :
  exists w,
    run 8 "t1" url opts [Resume] (submit url opts "t1" ∅ 0) = Some w
    /\ (exists t0, tasks (submit url opts "t1" ∅ 0) !! "t1" = Some t0
                   /\ status t0 = QUEUED)
    /\ (forall e w', step 8 "t1" url opts w e = Some w' ->
          exists t t',
            tasks w !! "t1" = Some t /\ tasks w' !! "t1" = Some t'
            /\ (status t' = status t \/ transition (status t) (status t')))
    /\ (forall evs' w', run 8 "t1" url opts evs' w = Some w' ->
          exists t t',
            tasks w !! "t1" = Some t /\ tasks w' !! "t1" = Some t'
            /\ rtc transition (status t) (status t')
            /\ (rtc transition (status t') (status t) -> status t' = status t))
    /\ (forall cmd e, at_pc w = AtSpawn cmd ->
          exists w' t t',
            step 8 "t1" url opts w (Throw e) = Some w'
            /\ tasks w !! "t1" = Some t /\ tasks w' !! "t1" = Some t'
            /\ status t = RUNNING /\ status t' = FAILED).
Proof.
  eexists. split; [reflexivity|].
  apply (status_follows_state_machine 8 "t1" url opts ∅ 0 [Resume]).
  reflexivity.
Defined.

(** ** The exit of the process *)

(** C1, as the code has it: when [process.wait()] returns a non-zero
    status the task becomes FAILED with the status and the end time
    recorded; the output buffer, the critical lines, the error lines and
    the live-detected vulnerabilities are what they were; the parser is
    not called, so [results] stays unset. *)
Theorem nonzero_exit_fails_and_keeps_output
    (cap : nat) (task_id url : string) (options : list (string * pyval))
    (registry : gmap string task) (now : Z) (evs : list event) (w : world)
    (p : process) (rc : Z) :
  run cap task_id url options evs (submit url options task_id registry now)
    = Some w ->
  at_pc w = AtWait -> proc w = Some p -> exit_status p = Some rc ->
  rc <> 0%Z ->
  exists w' t t',
    step cap task_id url options w Resume = Some w'
    /\ at_pc w' = Finished
    /\ tasks w !! task_id = Some t /\ tasks w' !! task_id = Some t'
    /\ status t' = FAILED
    /\ return_code t' = Some rc /\ end_time t' = Some (clock w)
    /\ output t' = output t
    /\ critical_lines t' = critical_lines t
    /\ errors t' = errors t
    /\ vulnerabilities t' = vulnerabilities t
    /\ results t' = None.
Proof.
  intros Hrun Hpc Hp Hrc Hnz.
  assert (Hinv : inv task_id w).
  { eapply run_inv; [apply inv_submit|exact Hrun]. }
  destruct Hinv as (t & Ht & Hi). rewrite Hpc in Hi.
  destruct Hi as (_ & _ & Hr & _).
  eexists. exists t. eexists.
  cbn [step]. unfold resume. rewrite Hpc, Hp, Hrc.
  split; [reflexivity|]. cbn. split; [reflexivity|]. split; [exact Ht|].
  rewrite (finish_task _ _ _ _ _ Ht).
  apply Z.eqb_neq in Hnz. rewrite Hnz.
  split; [reflexivity|]. destruct t; cbn in *. auto 12.
Qed.

Lemma nonzero_exit_fails_and_keeps_output_witness :
  exists w p,
    run 8 "t1" url opts (removelast (prints block 1)) start = Some w
    /\ proc w = Some p
    /\ exists w' t t',
      step 8 "t1" url opts w Resume = Some w'
      /\ at_pc w' = Finished
      /\ tasks w !! "t1" = Some t /\ tasks w' !! "t1" = Some t'
      /\ status t' = FAILED
      /\ return_code t' = Some 1%Z /\ end_time t' = Some (clock w)
      /\ output t' = output t
      /\ critical_lines t' = critical_lines t
      /\ errors t' = errors t
      /\ vulnerabilities t' = vulnerabilities t
      /\ results t' = None.
Proof.
  eexists. eexists. split; [vm_compute; reflexivity|].
  split; [reflexivity|].
  eapply (nonzero_exit_fails_and_keeps_output 8 "t1" url opts ∅ 0
            (removelast (prints block 1))).
  - vm_compute. reflexivity.
  - reflexivity.
  - reflexivity.
  - reflexivity.
  - discriminate.
Defined.

(** C1 as stated fails on its last clause.  A scan prints one
    injection point and exits with status 1: the task is FAILED with the
    status recorded and the buffer kept, but its findings are unset,
    although the extraction stages, run over that buffer, would store
    one finding. *)
Lemma nonzero_exit_runs_no_extraction :
  exists t,
    final 8 (prints block 1) = Some t
    /\ status t = FAILED /\ return_code t = Some 1%Z
    /\ results t = None
    /\ results (parse_task t)
       = Some [{| parameter := Some "id"; type := "boolean-based blind";
                  title := Some "AND boolean-based blind - WHERE or HAVING clause";
                  payload := Some "id=1 AND 5049=5049"; info := None |}].
Proof. eexists. split; [vm_compute; reflexivity|]. vm_compute. auto. Qed.

(** ** What a poll can see *)

(** C5, as the code has it.  In every state a poll can observe (the
    coroutine suspended at an await, or ended): a task that is COMPLETED
    already carries the outcome of the extraction over its buffer, that
    is the list of findings when there is one and nothing when the
    extraction found none; and a task that is no longer QUEUED has its
    command line set. *)
Theorem completed_task_is_parsed
    (cap : nat) (task_id url : string) (options : list (string * pyval))
    (registry : gmap string task) (now : Z) (evs : list event) (w : world) :
  run cap task_id url options evs (submit url options task_id registry now)
    = Some w ->
  exists t,
    tasks w !! task_id = Some t
    /\ (status t = COMPLETED -> results t = stored_findings t)
    /\ (status t <> QUEUED -> is_Some (command t)).
Proof.
  intros Hrun.
  assert (Hinv : inv task_id w).
  { eapply run_inv; [apply inv_submit|exact Hrun]. }
  destruct Hinv as (t & Ht & Hi). exists t. split; [exact Ht|].
  destruct (at_pc w); cbn in Hi.
  - destruct Hi as (Hs & _). rewrite Hs. split; congruence.
  - destruct Hi as (Hs & Hc & _). rewrite Hs. split; [congruence|auto].
  - destruct Hi as (Hs & Hc & _). rewrite Hs. split; [congruence|auto].
  - destruct Hi as (Hs & Hc & _). rewrite Hs. split; [congruence|auto].
  - destruct Hi as (Hs & Hc & _). rewrite Hs. split; [congruence|auto].
  - destruct Hi as (Hc & [(Hs & _)|(_ & Hr)]).
    + rewrite Hs. split; [congruence|auto].
    + split; auto.
Qed.

Lemma completed_task_is_parsed_witness :
  exists w,
    run 8 "t1" url opts (prints block 0) start = Some w
    /\ exists t,
      tasks w !! "t1" = Some t
      /\ (status t = COMPLETED -> results t = stored_findings t)
      /\ (status t <> QUEUED -> is_Some (command t)).
Proof.
  eexists. split; [vm_compute; reflexivity|].
  apply (completed_task_is_parsed 8 "t1" url opts ∅ 0 (prints block 0)).
  vm_compute. reflexivity.
Defined.

(** C5 as stated fails on its first clause.  A scan that prints nothing
    and exits with status 0 ends COMPLETED with its findings unset: the
    parser stores nothing when its list is empty. *)
Lemma completed_with_findings_unset :
  exists t,
    final 8 (silent 0) = Some t
    /\ status t = COMPLETED /\ results t = None
    /\ exists r, fst (get_scan_status "t1" 9000 {[ "t1" := t ]}) = inr r
                 /\ r_status r = COMPLETED /\ r_results r = None.
Proof.
  eexists. split; [vm_compute; reflexivity|].
  split; [reflexivity|]. split; [reflexivity|].
  eexists. split; [vm_compute; reflexivity|]. split; reflexivity.
Qed.

(** ** The reading loop *)

Lemma at_pc_settle task_id o p next w :
  at_pc (settle task_id o p next w) = next
  \/ at_pc (settle task_id o p next w) = Finished.
Proof. destruct o; cbn; auto. Qed.

Lemma proc_settle task_id o p next w :
  proc (settle task_id o p next w) = Some p.
Proof. destruct o; reflexivity. Qed.

Lemma resume_drained task_id url options (w w' : world) :
  resume task_id url options w = Some w' -> drained w'.
Proof.
  unfold resume, drained. intros Hstep Hpc'.
  destruct (at_pc w) eqn:Hpc.
  - destruct (tasks w !! task_id); injection Hstep as <-; discriminate.
  - destruct (proc w); [discriminate|]. injection Hstep as <-. discriminate.
  - destruct (proc w) as [p|]; [|discriminate].
    destruct (stdout_buf p) as [|l rest].
    + destruct (stdout_eof p); [|discriminate]. injection Hstep as <-.
      discriminate.
    + destruct (tasks w !! task_id); injection Hstep as <-; [|discriminate].
      destruct (at_pc_settle task_id (on_stdout_line l t)
                  {| stdout_buf := rest; stdout_eof := stdout_eof p;
                     stderr_buf := stderr_buf p; stderr_eof := stderr_eof p;
                     exit_status := exit_status p |} AtStderr w); congruence.
  - destruct (proc w) as [p|]; [|discriminate].
    destruct (stderr_buf p) as [|l rest] eqn:Hbuf.
    + destruct (stderr_eof p) eqn:Heof; [|discriminate]. injection Hstep as <-.
      cbn in Hpc'. exists p. split; [reflexivity|].
      destruct (stdout_at_eof p && stderr_at_eof p) eqn:Hboth;
        [|discriminate].
      apply andb_true_iff in Hboth. exact Hboth.
    + destruct (tasks w !! task_id); injection Hstep as <-; [|discriminate].
      match type of Hpc' with
      | at_pc (settle _ ?o ?p' ?n _) = _ =>
          exists p'; split; [apply proc_settle|];
          destruct (at_pc_settle task_id o p' n w) as [Hn|Hn];
            rewrite Hn in Hpc'; [|discriminate];
          destruct (stdout_at_eof p' && stderr_at_eof p') eqn:Hboth;
            [|discriminate];
          apply andb_true_iff in Hboth; exact Hboth
      end.
  - destruct (proc w) as [p|]; [|discriminate].
    destruct (exit_status p); [|discriminate]. injection Hstep as <-.
    discriminate.
  - discriminate.
Qed.

Lemma step_drained cap task_id url options (w w' : world) (e : event) :
  drained w ->
  step cap task_id url options w e = Some w' ->
  drained w'.
Proof.
  intros Hd Hstep. destruct e; cbn [step] in Hstep.
  - eapply resume_drained; eassumption.
  - unfold throw in Hstep. intros Hpc'.
    destruct (at_pc w); try discriminate; injection Hstep as <-;
      discriminate.
  - unfold running in Hstep. intros Hpc'.
    destruct (proc w) as [p|] eqn:Hp; [|discriminate].
    destruct (exit_status p); [discriminate|].
    destruct (negb (stdout_eof p) && (length (stdout_buf p) <? cap)) eqn:Hc;
      [|discriminate].
    injection Hstep as <-. cbn in Hpc'.
    destruct (Hd Hpc') as (p0 & Hp0 & Ho & _).
    rewrite Hp in Hp0. injection Hp0 as <-.
    unfold stdout_at_eof in Ho. apply andb_true_iff in Ho, Hc.
    destruct Ho as [Ho _]. destruct Hc as [Hc _]. rewrite Ho in Hc.
    discriminate.
  - unfold running in Hstep. intros Hpc'.
    destruct (proc w) as [p|] eqn:Hp; [|discriminate].
    destruct (exit_status p); [discriminate|].
    destruct (negb (stderr_eof p) && (length (stderr_buf p) <? cap)) eqn:Hc;
      [|discriminate].
    injection Hstep as <-. cbn in Hpc'.
    destruct (Hd Hpc') as (p0 & Hp0 & _ & He).
    rewrite Hp in Hp0. injection Hp0 as <-.
    unfold stderr_at_eof in He. apply andb_true_iff in He, Hc.
    destruct He as [He _]. destruct Hc as [Hc _]. rewrite He in Hc.
    discriminate.
  - unfold running in Hstep. intros Hpc'.
    destruct (proc w) as [p|] eqn:Hp; [|discriminate].
    destruct (exit_status p); [discriminate|].
    injection Hstep as <-. cbn in Hpc'.
    destruct (Hd Hpc') as (p0 & Hp0 & Ho & He).
    rewrite Hp in Hp0. injection Hp0 as <-.
    eexists. split; [reflexivity|].
    unfold stdout_at_eof, stderr_at_eof in *. cbn.
    apply andb_true_iff in Ho. destruct Ho as [_ Ho]. auto.
  - unfold running in Hstep. intros Hpc'.
    destruct (proc w) as [p|] eqn:Hp; [|discriminate].
    destruct (exit_status p); [discriminate|].
    injection Hstep as <-. cbn in Hpc'.
    destruct (Hd Hpc') as (p0 & Hp0 & Ho & He).
    rewrite Hp in Hp0. injection Hp0 as <-.
    eexists. split; [reflexivity|].
    unfold stdout_at_eof, stderr_at_eof in *. cbn.
    apply andb_true_iff in He. destruct He as [_ He]. auto.
  - unfold running in Hstep. intros Hpc'.
    destruct (proc w) as [p|] eqn:Hp; [|discriminate].
    destruct (exit_status p); [discriminate|].
    injection Hstep as <-. cbn in Hpc'.
    destruct (Hd Hpc') as (p0 & Hp0 & Ho & He).
    rewrite Hp in Hp0. injection Hp0 as <-.
    eexists. split; [reflexivity|].
    unfold stdout_at_eof, stderr_at_eof in *. cbn.
    apply andb_true_iff in Ho, He. destruct Ho as [_ Ho], He as [_ He]. auto.
  - destruct (0 <=? dt)%Z; [|discriminate]. injection Hstep as <-.
    exact Hd.
Qed.

Lemma run_drained cap task_id url options (evs : list event) :
  forall w w', drained w ->
  run cap task_id url options evs w = Some w' ->
  drained w'.
Proof.
  induction evs as [|e evs IH]; intros w w' Hd Hrun; cbn in Hrun.
  - injection Hrun as <-. exact Hd.
  - destruct (step cap task_id url options w e) as [w1|] eqn:Hstep;
      [|discriminate].
    eapply IH; [|eassumption]. eapply step_drained; eassumption.
Qed.

(** C4, as the code has it.  The consumer is one loop that awaits a
    line of standard output and then a line of standard error, in
    turn; it is not two independent readers.  At any point [w] of a scan:
    suspended on one stream, the loop goes on only when that stream has
    a line or has ended, whatever the other stream holds; going on, it
    takes at most the first line of that stream, leaves the other stream
    alone and passes to the other stream, or, after standard error, out
    of the loop to the wait for the process exactly when both streams
    are at their end; the one other way out of the loop is an exception
    raised by the awaited read, which may come at any time and ends the
    scan as FAILED with that error, the streams left as they are; what
    the process and the clock do meanwhile moves neither the coroutine
    nor the task; and whenever the coroutine waits for the exit of the
    process, both streams have reached end-of-stream. *)
Theorem streams_are_read_in_turn
    (cap : nat) (task_id url : string) (options : list (string * pyval))
    (registry : gmap string task) (now : Z) (evs : list event) (w : world)
    (p : process) :
  run cap task_id url options evs (submit url options task_id registry now)
    = Some w ->
  proc w = Some p ->
  (at_pc w = AtStdout ->
     (stdout_buf p = [] -> stdout_eof p = false ->
        step cap task_id url options w Resume = None)
     /\ (forall w', step cap task_id url options w Resume = Some w' ->
           at_pc w' = AtStderr
           /\ exists p', proc w' = Some p'
                /\ stdout_buf p' = tail (stdout_buf p)
                /\ stderr_buf p' = stderr_buf p))
  /\ (at_pc w = AtStderr ->
       (stderr_buf p = [] -> stderr_eof p = false ->
          step cap task_id url options w Resume = None)
       /\ (forall w', step cap task_id url options w Resume = Some w' ->
             exists p', proc w' = Some p'
               /\ stdout_buf p' = stdout_buf p
               /\ stderr_buf p' = tail (stderr_buf p)
               /\ at_pc w' = if stdout_at_eof p' && stderr_at_eof p'
                             then AtWait else AtStdout))
  /\ (at_pc w = AtStdout \/ at_pc w = AtStderr ->
       (forall e, exists w' t',
           step cap task_id url options w (Throw e) = Some w'
           /\ at_pc w' = Finished /\ proc w' = Some p
           /\ tasks w' !! task_id = Some t'
           /\ status t' = FAILED /\ error t' = Some e)
       /\ (forall ev w',
             step cap task_id url options w ev = Some w' ->
             ev <> Resume -> (forall e, ev <> Throw e) ->
             at_pc w' = at_pc w /\ tasks w' = tasks w))
  /\ (at_pc w = AtWait ->
       stdout_at_eof p = true /\ stderr_at_eof p = true).
Proof.
  intros Hrun Hp.
  assert (Hinv : inv task_id w).
  { eapply run_inv; [apply inv_submit|exact Hrun]. }
  assert (Hd : drained w).
  { eapply run_drained; [|exact Hrun]. intros H. discriminate H. }
  destruct Hinv as (t & Ht & Hi).
  split; [|split; [|split]]; cycle 2.
  - intros Hpc. split.
    + intros e. cbn [step]. unfold throw.
      destruct Hpc as [Hpc|Hpc]; rewrite Hpc; eexists; eexists;
        (split; [reflexivity|]); cbn [at_pc proc tasks];
        (split; [reflexivity|]); (split; [exact Hp|]);
        unfold on_exception; rewrite lookup_alter_eq, Ht;
        (split; [reflexivity|]); destruct t; split; reflexivity.
    + intros ev w' Hstep Hresume Hthrow.
      destruct ev; cbn [step] in Hstep;
        [congruence | exfalso; exact (Hthrow _ eq_refl) | ..];
        try unfold running in Hstep;
        repeat (case_match; try discriminate);
        injection Hstep as <-; auto.
  - intros Hpc. destruct (Hd Hpc) as (p0 & Hp0 & H).
    rewrite Hp in Hp0. injection Hp0 as <-. exact H.
  - intros Hpc. rewrite Hpc in Hi. cbn [step]. unfold resume.
    rewrite Hpc, Hp, Ht. split.
    + intros -> ->. reflexivity.
    + intros w' Hstep.
      destruct (stdout_buf p) as [|l rest] eqn:Hbuf.
      * destruct (stdout_eof p); [|discriminate]. injection Hstep as <-.
        cbn. split; [reflexivity|]. exists p. rewrite Hbuf. auto.
      * injection Hstep as <-.
        destruct (on_stdout_line_ok l t) as (t' & -> & _); [apply Hi|].
        cbn. split; [reflexivity|]. eexists. split; [reflexivity|]. auto.
  - intros Hpc. rewrite Hpc in Hi. cbn [step]. unfold resume.
    rewrite Hpc, Hp, Ht. split.
    + intros -> ->. reflexivity.
    + intros w' Hstep.
      destruct (stderr_buf p) as [|l rest] eqn:Hbuf.
      * destruct (stderr_eof p) eqn:Heof; [|discriminate].
        injection Hstep as <-. cbn. exists p. rewrite Hbuf. auto.
      * injection Hstep as <-.
        destruct (on_stderr_line_ok l t) as (t' & -> & _); [apply Hi|].
        cbn. eexists. split; [reflexivity|]. cbn. auto.
Qed.

Lemma streams_are_read_in_turn_witness :
  (* suspended on standard output, a line waiting on each stream *)
  (exists w p,
     run 8 "t1" url opts both_written start = Some w
     /\ proc w = Some p
     /\ at_pc w = AtStdout
     /\ stdout_buf p = ["[INFO] testing connection to the target URL"]
     /\ stderr_buf p = ["[WARNING] retrying"]
     /\ (exists w' p',
           step 8 "t1" url opts w Resume = Some w'
           /\ at_pc w' = AtStderr /\ proc w' = Some p'
           /\ stdout_buf p' = [] /\ stderr_buf p' = ["[WARNING] retrying"])
     /\ (exists w' t',
           step 8 "t1" url opts w (Throw "Separator is not found, and chunk exceed the limit")
           = Some w'
           /\ at_pc w' = Finished /\ proc w' = Some p
           /\ tasks w' !! "t1" = Some t'
           /\ status t' = FAILED
           /\ error t' = Some "Separator is not found, and chunk exceed the limit")
     /\ (forall w', step 8 "t1" url opts w CloseStderr = Some w' ->
           at_pc w' = at_pc w /\ tasks w' = tasks w))
  (* suspended on standard error, its line still unread *)
  /\ (exists w p,
        run 8 "t1" url opts (both_written ++ [Resume]) start = Some w
        /\ proc w = Some p
        /\ at_pc w = AtStderr
        /\ stderr_buf p = ["[WARNING] retrying"]
        /\ (exists w' p',
              step 8 "t1" url opts w Resume = Some w'
              /\ proc w' = Some p'
              /\ stdout_buf p' = [] /\ stderr_buf p' = []
              /\ at_pc w' = AtStdout)
        /\ (exists w' t',
              step 8 "t1" url opts w (Throw "Separator is not found, and chunk exceed the limit")
              = Some w'
              /\ at_pc w' = Finished /\ proc w' = Some p
              /\ tasks w' !! "t1" = Some t'
              /\ status t' = FAILED
              /\ error t' = Some "Separator is not found, and chunk exceed the limit"))
  (* out of the loop, waiting for the exit *)
  /\ (exists w p,
        run 8 "t1" url opts (removelast (prints block 0)) start = Some w
        /\ proc w = Some p
        /\ at_pc w = AtWait
        /\ stdout_at_eof p = true /\ stderr_at_eof p = true).
Proof.
  split; [|split].
  - eexists. eexists. split; [vm_compute; reflexivity|].
    split; [reflexivity|].
    lazymatch goal with
    | |- at_pc ?w = _ /\ _ =>
        eassert (H : _);
        [eapply (streams_are_read_in_turn 8 "t1" url opts ∅ 0 both_written w);
         [vm_compute; reflexivity|reflexivity]|]
    end.
    destruct H as (Hout & _ & Hloop & _).
    split; [reflexivity|]. split; [reflexivity|]. split; [reflexivity|].
    destruct (Hout eq_refl) as (_ & Hnext).
    destruct (Hloop (or_introl eq_refl)) as (Hthrow & Hquiet).
    split; [|split].
    + eexists. eexists. split; [vm_compute; reflexivity|].
      lazymatch goal with
      | |- at_pc ?w' = _ /\ _ =>
          eassert (Hstep : _ = Some w'); [|destruct (Hnext _ Hstep) as (Hpc & _)];
          [vm_compute; reflexivity|]
      end.
      split; [exact Hpc|]. split; [reflexivity|].
      split; reflexivity.
    + exact (Hthrow _).
    + intros w' Hstep.
      apply (Hquiet CloseStderr w' Hstep); [discriminate|].
      intros e. discriminate.
  - eexists. eexists. split; [vm_compute; reflexivity|].
    split; [reflexivity|].
    lazymatch goal with
    | |- at_pc ?w = _ /\ _ =>
        eassert (H : _);
        [eapply (streams_are_read_in_turn 8 "t1" url opts ∅ 0
                   (both_written ++ [Resume]) w);
         [vm_compute; reflexivity|reflexivity]|]
    end.
    destruct H as (_ & _ & Hloop & _).
    split; [reflexivity|]. split; [reflexivity|].
    destruct (Hloop (or_intror eq_refl)) as (Hthrow & _).
    split.
    + eexists. eexists. split; [vm_compute; reflexivity|].
      split; [reflexivity|]. split; [reflexivity|].
      split; reflexivity.
    + exact (Hthrow _).
  - eexists. eexists. split; [vm_compute; reflexivity|].
    split; [reflexivity|].
    lazymatch goal with
    | |- at_pc ?w = _ /\ _ =>
        eassert (H : _);
        [eapply (streams_are_read_in_turn 8 "t1" url opts ∅ 0
                   (removelast (prints block 0)) w);
         [vm_compute; reflexivity|reflexivity]|]
    end.
    destruct H as (_ & _ & _ & Hwait).
    split; [reflexivity|].
    exact (Hwait eq_refl).
Defined.

(** C4 as stated fails: the streams are not drained independently.
    With room for three unread lines per stream, a process that writes
    three lines on standard error before any on standard output leaves
    the coroutine suspended on standard output, which is empty and still
    open, while standard error is full: the coroutine cannot be resumed,
    so nothing drains standard error, and the process cannot write its
    next line there. *)
Lemma full_stderr_stalls_the_process :
  exists w p,
    run 3 "t1" url opts (stderr_first 3) start = Some w
    /\ proc w = Some p
    /\ at_pc w = AtStdout
    /\ stdout_buf p = [] /\ stdout_eof p = false
    /\ length (stderr_buf p) = 3
    /\ step 3 "t1" url opts w Resume = None
    /\ forall line, step 3 "t1" url opts w (WriteStderr line) = None.
Proof.
  eexists. eexists. split; [vm_compute; reflexivity|].
  repeat (split; [reflexivity|]). intros line. reflexivity.
Qed.

(** The same happens whatever the room in the streams: [cap] lines on
    standard error fill it while the coroutine waits on standard
    output. *)
Lemma stderr_writes_fill (cap : nat) (task_id url : string)
    (options : list (string * pyval)) (m : gmap string task) (c : Z)
    (line : string) (n : nat) :
  forall buf, length buf + n <= cap ->
  run cap task_id url options (repeat (WriteStderr line) n)
    {| tasks := m; clock := c;
       proc := Some {| stdout_buf := []; stdout_eof := false;
                       stderr_buf := buf; stderr_eof := false;
                       exit_status := None |};
       at_pc := AtStdout |}
  = Some {| tasks := m; clock := c;
            proc := Some {| stdout_buf := []; stdout_eof := false;
                            stderr_buf := buf ++ repeat line n;
                            stderr_eof := false; exit_status := None |};
            at_pc := AtStdout |}.
Proof.
  induction n as [|n IH]; intros buf Hlen; cbn [repeat run].
  - rewrite app_nil_r. reflexivity.
  - cbn [step running proc exit_status stderr_eof stderr_buf negb andb].
    assert (Hlt : (length buf <? cap) = true) by (apply Nat.ltb_lt; lia).
    rewrite Hlt. unfold with_proc. cbn.
    rewrite IH by (rewrite length_app; cbn; lia).
    rewrite <- app_assoc. reflexivity.
Qed.

Lemma full_stderr_stalls_at_any_capacity (cap : nat) :
  exists w p,
    run cap "t1" url opts (stderr_first cap) start = Some w
    /\ proc w = Some p
    /\ at_pc w = AtStdout
    /\ stdout_buf p = [] /\ stdout_eof p = false
    /\ length (stderr_buf p) = cap
    /\ step cap "t1" url opts w Resume = None
    /\ forall line, step cap "t1" url opts w (WriteStderr line) = None.
Proof.
  eexists. eexists. split.
  - unfold stderr_first. cbn [app run].
    change (step cap "t1" url opts start Resume)
      with (resume "t1" url opts start).
    unfold resume at 1. cbn [at_pc start submit tasks].
    rewrite lookup_insert_eq.
    cbn [step resume at_pc proc set_proc tasks clock spawned].
    apply stderr_writes_fill. cbn. lia.
  - cbn [app proc at_pc stdout_buf stdout_eof stderr_buf].
    repeat (split; [reflexivity|]).
    split; [apply repeat_length|]. split; [reflexivity|].
    intros line.
    cbn [step running proc exit_status stderr_eof stderr_buf negb andb].
    rewrite repeat_length, Nat.ltb_irrefl. reflexivity.
Qed.

(** ** The matcher on text of a known shape *)

Lemma app_cons (a : ascii) (s t : string) :
  String a s +:+ t = String a (s +:+ t).
Proof. reflexivity. Qed.

Lemma app_nil (t : string) : EmptyString +:+ t = t.
Proof. reflexivity. Qed.

Lemma length_app (a b : string) :
  String.length (a +:+ b) = String.length a + String.length b.
Proof.
  induction a as [|c a IH]; [reflexivity|].
  rewrite app_cons. simpl. rewrite IH. reflexivity.
Qed.

Lemma substring_prefix (a b : string) :
  substring 0 (String.length a) (a +:+ b) = a.
Proof.
  induction a as [|c a IH].
  - rewrite app_nil. destruct b; reflexivity.
  - rewrite app_cons. simpl. rewrite IH. reflexivity.
Qed.

Lemma app_assoc_s (a b c : string) : (a +:+ b) +:+ c = a +:+ (b +:+ c).
Proof.
  induction a as [|x a IH]; [reflexivity|].
  rewrite !app_cons, IH. reflexivity.
Qed.

Lemma captured (x rest : string) :
  substring 0 (String.length (x +:+ rest) - String.length rest) (x +:+ rest)
  = x.
Proof.
  rewrite length_app.
  replace (String.length x + String.length rest - String.length rest)
    with (String.length x) by lia.
  apply substring_prefix.
Qed.

Lemma strip_prefix_app (l s : string) : strip_prefix l (l +:+ s) = Some s.
Proof.
  induction l as [|a l IH].
  - rewrite app_nil. destruct s; reflexivity.
  - rewrite app_cons. simpl. rewrite Ascii.eqb_refl. exact IH.
Qed.

Lemma plus_class_stops {A} (g : bool) (p : ascii -> bool) (s : string)
    (k : string -> option A) :
  stops p s -> plus_class g p s k = None.
Proof. destruct s as [|a t]; simpl; [reflexivity|]. intros ->. reflexivity. Qed.

(** A greedy repetition takes a whole run of matching characters when
    the rest of the pattern accepts what follows the run. *)
Lemma plus_class_greedy {A} (p : ascii -> bool) (run rest : string)
    (k : string -> option A) (v : A) :
  run <> EmptyString -> all_chars (fun a => p a = true) run ->
  stops p rest -> k rest = Some v ->
  plus_class true p (run +:+ rest) k = Some v.
Proof.
  intros Hne Hall Hstop Hk.
  induction run as [|a t IH]; [congruence|].
  destruct Hall as [Ha Ht]. rewrite app_cons. simpl. rewrite Ha.
  destruct t as [|b t'].
  - rewrite app_nil, (plus_class_stops true p rest k Hstop). exact Hk.
  - rewrite IH; [reflexivity|congruence|exact Ht].
Qed.

(** A lazy repetition stops at the first place where the rest of the
    pattern matches: after a run the rest of the pattern rejects at each
    of its characters. *)
Lemma plus_class_lazy {A} (p : ascii -> bool) (q : ascii -> Prop)
    (run rest : string) (k : string -> option A) (v : A) :
  (forall a, q a -> p a = true) ->
  (forall a t, q a -> k (String a t) = None) ->
  run <> EmptyString -> all_chars q run ->
  k rest = Some v ->
  plus_class false p (run +:+ rest) k = Some v.
Proof.
  intros Hp Hq Hne Hall Hk.
  induction run as [|a t IH]; [congruence|].
  destruct Hall as [Ha Ht]. rewrite app_cons. simpl. rewrite (Hp a Ha).
  destruct t as [|b t'].
  - rewrite app_nil, Hk. reflexivity.
  - rewrite app_cons, (Hq b _ (proj1 Ht)). rewrite <- app_cons.
    apply IH; [congruence|exact Ht].
Qed.

Lemma findall_skip (r : regex) (x s : string) :
  findall_from r (String.length x) (x +:+ s) = findall_from r 0 s.
Proof.
  induction x as [|a x IH].
  - rewrite app_nil. destruct s; reflexivity.
  - rewrite app_cons. simpl. exact IH.
Qed.

Lemma alt_point_here (m n d rest : string) :
  method_ok m -> name_ok n -> detail_ok d -> stops (cmatch CDot) rest ->
  match_here alt_point_re (alt_line m n d +:+ rest)
  = Some (rest, [(3, "is vulnerable" +:+ d); (2, n); (1, m)]).
Proof.
  intros [Hm1 Hm2] [Hn1 Hn2] [Hd1 Hd2] Hrest.
  unfold match_here, alt_point_re, alt_line.
  rewrite !app_assoc_s.
  cbn [rmatch rseq].
  apply plus_class_greedy; [exact Hm1|exact Hm2|reflexivity|].
  rewrite strip_prefix_app, captured.
  apply (plus_class_lazy _ name_char); [| |exact Hn1|exact Hn2|].
  - intros a [_ Ha]. cbn. apply negb_true_iff, Ascii.eqb_neq. exact Ha.
  - intros a t [Ha _]. cbn [strip_prefix].
    replace (Ascii.eqb "'" a) with false; [reflexivity|].
    symmetry. apply Ascii.eqb_neq. congruence.
  - change ("' is vulnerable" +:+ d +:+ rest)
      with ("' " +:+ "is vulnerable" +:+ d +:+ rest).
    rewrite !strip_prefix_app, captured.
    apply plus_class_greedy; [exact Hd1| |exact Hrest|].
    + clear -Hd2. induction d as [|a d IH]; [exact I|].
      destruct Hd2 as [Ha Hd]. split; [|apply IH; exact Hd].
      cbn. apply negb_true_iff, Ascii.eqb_neq. exact Ha.
    + rewrite <- (app_assoc_s "is vulnerable" d rest), captured.
      reflexivity.
Qed.

Lemma findall_match (r : regex) (x rest : string) (c : caps) :
  x <> EmptyString ->
  match_here r (x +:+ rest) = Some (rest, c) ->
  findall_from r 0 (x +:+ rest) = c :: findall_from r 0 rest.
Proof.
  intros Hx Hm. destruct x as [|a x]; [congruence|].
  rewrite app_cons in *. cbn [findall_from]. rewrite Hm. f_equal.
  rewrite <- findall_skip with (x := x). f_equal.
  cbn [String.length]. rewrite length_app. lia.
Qed.

Lemma findall_no_match (r : regex) (a : ascii) (rest : string) :
  match_here r (String a rest) = None ->
  findall_from r 0 (String a rest) = findall_from r 0 rest.
Proof. intros Hm. cbn [findall_from]. rewrite Hm. reflexivity. Qed.

Lemma alt_line_nonempty m n d : method_ok m -> alt_line m n d <> EmptyString.
Proof.
  intros [Hm _]. unfold alt_line. destruct m; [congruence|].
  rewrite app_cons. discriminate.
Qed.

(** *** Matches of a one-line pattern do not depend on later lines *)

Lemma has_nl_nonempty (t : string) : has_nl t -> 1 <= String.length t.
Proof. destruct t; cbn; [tauto|lia]. Qed.

Lemma ends_line_tail (a : ascii) (t : string) :
  ends_line (String a t) -> ends_line t.
Proof. destruct t; cbn; auto. Qed.

Lemma ends_line_has_nl (b : string) :
  ends_line b -> b <> EmptyString -> has_nl b.
Proof.
  induction b as [|a t IH]; [congruence|]. intros He _.
  destruct t as [|c t'].
  - left. exact He.
  - right. apply IH; [exact He|discriminate].
Qed.

Lemma class_rejects_nl (c : cclass) (a : ascii) :
  c = CDot \/ c = CWord -> cmatch c a = true -> a <> nl.
Proof. intros [-> | ->] Hm ->; vm_compute in Hm; discriminate. Qed.

Lemma substring_app_l (t x : string) :
  forall n, n <= String.length t ->
  substring 0 n (t +:+ x) = substring 0 n t.
Proof.
  induction t as [|a t IH]; intros n Hn; cbn in Hn.
  - assert (n = 0) as -> by lia. rewrite app_nil. destruct x; reflexivity.
  - rewrite app_cons. destruct n as [|n]; [reflexivity|].
    cbn. rewrite IH by lia. reflexivity.
Qed.

Lemma strip_prefix_local (l : string) (x : string) :
  all_chars (fun a => a <> nl) l ->
  forall t, has_nl t ->
  strip_prefix l (t +:+ x) = option_map (fun t' => t' +:+ x) (strip_prefix l t)
  /\ (forall t', strip_prefix l t = Some t' -> has_nl t').
Proof.
  induction l as [|a l IH]; intros Hl t Ht.
  - cbn. split; [destruct (t +:+ x), t; reflexivity|].
    intros t' H. destruct t; injection H as <-; exact Ht.
  - destruct Hl as [Ha Hl]. destruct t as [|b t]; [destruct Ht|].
    rewrite app_cons. cbn [strip_prefix].
    destruct (Ascii.eqb a b) eqn:Hab.
    + apply Ascii.eqb_eq in Hab. subst b.
      destruct Ht as [Hnl|Ht]; [congruence|]. apply IH; assumption.
    + split; [reflexivity|discriminate].
Qed.

Lemma plus_class_local {A B} (f : A -> B) (g : bool) (p : ascii -> bool)
    (x : string) (k : string -> option A) (k' : string -> option B) :
  (forall a, p a = true -> a <> nl) ->
  (forall t, has_nl t -> k' (t +:+ x) = option_map f (k t)) ->
  forall t, has_nl t ->
  plus_class g p (t +:+ x) k' = option_map f (plus_class g p t k).
Proof.
  intros Hp Hk. induction t as [|a t IH]; [intros []|]. intros Ht.
  rewrite app_cons. cbn [plus_class].
  destruct (p a) eqn:Hpa; [|reflexivity].
  destruct Ht as [Hnl|Ht]; [destruct (Hp a Hpa Hnl)|].
  rewrite (IH Ht), (Hk t Ht).
  destruct g; destruct (plus_class _ p t k), (k t); reflexivity.
Qed.

Lemma plus_class_keeps_nl {A} (g : bool) (p : ascii -> bool)
    (k : string -> option A) (v : A) :
  (forall a, p a = true -> a <> nl) ->
  forall t, has_nl t -> plus_class g p t k = Some v ->
  exists t', has_nl t' /\ k t' = Some v.
Proof.
  intros Hp. induction t as [|a t IH]; [intros []|]. intros Ht Hm.
  cbn [plus_class] in Hm. destruct (p a) eqn:Hpa; [|discriminate].
  destruct Ht as [Hnl|Ht]; [destruct (Hp a Hpa Hnl)|].
  destruct g.
  - destruct (plus_class true p t k) eqn:Hrec; cbn in Hm.
    + apply IH; assumption.
    + eauto.
  - destruct (k t) eqn:Hkt; cbn in Hm.
    + injection Hm as ->. eauto.
    + apply IH; assumption.
Qed.

(** Text after the line feed of [t] does not change how a one-line
    pattern matches at the start of [t]. *)
Lemma rmatch_local {A B} (f : A -> B) (x : string) (r : regex) :
  line_local r ->
  forall t c (k : string -> caps -> option A) (k' : string -> caps -> option B),
    has_nl t ->
    (forall t' c', has_nl t' -> k' (t' +:+ x) c' = option_map f (k t' c')) ->
    rmatch r (t +:+ x) c k' = option_map f (rmatch r t c k).
Proof.
  induction r as [l|r1 IH1 r2 IH2|n r1 IH1|g cl|r1 _];
    intros Hr t c k k' Ht Hk; cbn [rmatch].
  - destruct (strip_prefix_local l x Hr t Ht) as [-> Hnl].
    destruct (strip_prefix l t) as [t'|] eqn:Hs; [|reflexivity].
    cbn. apply Hk. apply Hnl. reflexivity.
  - destruct Hr as [Hr1 Hr2]. apply IH1; [exact Hr1|exact Ht|].
    intros t' c' Ht'. apply IH2; assumption.
  - apply IH1; [exact Hr|exact Ht|].
    intros t' c' Ht'. rewrite Hk by exact Ht'.
    rewrite !length_app.
    replace (String.length t + String.length x
             - (String.length t' + String.length x))
      with (String.length t - String.length t') by lia.
    rewrite substring_app_l by lia. reflexivity.
  - apply plus_class_local; [|intros t' Ht'; apply Hk; exact Ht'|exact Ht].
    intros a. apply class_rejects_nl. exact Hr.
  - destruct Hr.
Qed.

(** A one-line pattern matched at the start of [t] stops before the line
    feed of [t]. *)
Lemma rmatch_keeps_nl {A} (r : regex) :
  line_local r ->
  forall t c (k : string -> caps -> option A) (v : A),
    has_nl t -> rmatch r t c k = Some v ->
    exists t' c', has_nl t' /\ k t' c' = Some v.
Proof.
  induction r as [l|r1 IH1 r2 IH2|n r1 IH1|g cl|r1 _];
    intros Hr t c k v Ht Hm; cbn [rmatch] in Hm.
  - destruct (strip_prefix_local l EmptyString Hr t Ht) as [_ Hnl].
    destruct (strip_prefix l t) as [t'|] eqn:Hs; [|discriminate]. eauto.
  - destruct Hr as [Hr1 Hr2].
    destruct (IH1 Hr1 _ _ _ _ Ht Hm) as (t1 & c1 & Ht1 & Hm1).
    exact (IH2 Hr2 _ _ _ _ Ht1 Hm1).
  - destruct (IH1 Hr _ _ _ _ Ht Hm) as (t1 & c1 & Ht1 & Hm1). eauto.
  - destruct (plus_class_keeps_nl g (cmatch cl) (fun s' => k s' c) v)
      with (t := t) as (t' & Ht' & Hk'); eauto.
    intros a. apply class_rejects_nl. exact Hr.
  - destruct Hr.
Qed.

Lemma match_here_local (r : regex) (t x : string) :
  line_local r -> has_nl t ->
  match_here r (t +:+ x)
  = option_map (fun m => (fst m +:+ x, snd m)) (match_here r t).
Proof.
  intros Hr Ht. unfold match_here.
  apply (rmatch_local (fun m : string * caps => (fst m +:+ x, snd m)));
    [exact Hr|exact Ht|]. reflexivity.
Qed.

Lemma match_here_keeps_nl (r : regex) (t s' : string) (c : caps) :
  line_local r -> has_nl t ->
  match_here r t = Some (s', c) -> has_nl s'.
Proof.
  intros Hr Ht Hm. unfold match_here in Hm.
  destruct (rmatch_keeps_nl r Hr _ _ _ _ Ht Hm) as (t' & c' & Ht' & H).
  injection H as <- _. exact Ht'.
Qed.

(** The matches found in whole lines are the same whatever follows
    them, and the search then goes on at the start of what follows. *)
Lemma findall_local (r : regex) (x : string) :
  line_local r ->
  forall b skip,
    ends_line b -> (skip = 0 \/ skip < String.length b) ->
    findall_from r skip (b +:+ x)
    = findall_from r skip b ++ findall_from r 0 x.
Proof.
  intros Hr. induction b as [|a b IH]; intros skip He Hskip.
  - cbn in Hskip. assert (skip = 0) as -> by lia. rewrite app_nil.
    reflexivity.
  - assert (Hnl : has_nl (String a b))
      by (apply ends_line_has_nl; [exact He|discriminate]).
    assert (He' := ends_line_tail _ _ He).
    rewrite app_cons. destruct skip as [|skip].
    + cbn [findall_from]. rewrite <- app_cons.
      rewrite (match_here_local r (String a b) x Hr Hnl).
      destruct (match_here r (String a b)) as [[s' c]|] eqn:Hm; cbn.
      * assert (Hs' := has_nl_nonempty _
                         (match_here_keeps_nl r _ _ _ Hr Hnl Hm)).
        rewrite app_cons, length_app. cbn [String.length].
        rewrite length_app.
        replace (S (String.length b + String.length x)
                 - (String.length s' + String.length x) - 1)
          with (S (String.length b) - String.length s' - 1) by lia.
        rewrite IH; [reflexivity|exact He'|lia].
      * apply IH; [exact He'|left; reflexivity].
    + cbn [findall_from]. cbn in Hskip.
      apply IH; [exact He'|lia].
Qed.

Lemma alt_point_re_local : line_local alt_point_re.
Proof.
  unfold alt_point_re. cbn. repeat split; try discriminate; auto.
Qed.

(** A line of the fallback shape, standing anywhere in the buffer,
    gives exactly one finding, between those of the lines before it and
    those of the lines after it. *)
Lemma line_ends_stops (after : string) :
  line_ends after -> stops (cmatch CDot) after.
Proof. destruct after as [|a t]; cbn; [tauto|]. intros ->. reflexivity. Qed.

Lemma alt_findings_line (before after m n d : string) :
  method_ok m -> name_ok n -> detail_ok d ->
  ends_line before -> line_ends after ->
  alt_findings (before +:+ alt_line m n d +:+ after)
  = alt_findings before
    ++ finding_of_line m n d :: alt_findings after.
Proof.
  intros Hm Hn Hd Hb Ha. apply line_ends_stops in Ha.
  unfold alt_findings, findall.
  rewrite (findall_local alt_point_re _ alt_point_re_local before 0 Hb)
    by (left; reflexivity).
  rewrite findall_match
    with (c := [(3, "is vulnerable" +:+ d); (2, n); (1, m)]).
  - rewrite map_app. reflexivity.
  - apply alt_line_nonempty. exact Hm.
  - apply alt_point_here; assumption.
Qed.

(** ** The stages of the extraction *)

Lemma merge_added (vulns : list live_vuln) :
  forall results,
    merge_vulnerabilities results vulns
    = results ++ added_vulnerabilities results vulns.
Proof.
  unfold merge_vulnerabilities.
  induction vulns as [|v vs IH]; intros results; cbn.
  - rewrite app_nil_r. reflexivity.
  - destruct (has_parameter (v_parameter v) results); [apply IH|].
    rewrite IH, <- app_assoc. reflexivity.
Qed.

Lemma extract_results_stages output crit vulns :
  extract_results output crit vulns = concat (stages output crit vulns).
Proof.
  unfold extract_results, stages. cbn [concat app].
  rewrite app_nil_r.
  destruct (injection_findings output) as [|f fs] eqn:H1.
  - cbn [app]. destruct crit as [lines|], vulns as [vs|];
      rewrite ?merge_added, ?app_nil_r, <- ?app_assoc; reflexivity.
  - rewrite app_nil_l. destruct crit as [lines|], vulns as [vs|];
      rewrite ?merge_added, ?app_nil_r, <- ?app_assoc; reflexivity.
Qed.

Lemma injection_findings_parameter output f :
  In f (injection_findings output) -> exists p, parameter f = Some p.
Proof.
  unfold injection_findings. intros H.
  apply in_flat_map in H. destruct H as (m & _ & H).
  apply in_map_iff in H. destruct H as (v & <- & _). cbn. eauto.
Qed.

Lemma alt_findings_parameter output f :
  In f (alt_findings output) -> exists p, parameter f = Some p.
Proof.
  unfold alt_findings. intros H.
  apply in_map_iff in H. destruct H as (v & <- & _). cbn. eauto.
Qed.

Lemma dbms_findings_key output f :
  In f (dbms_findings output) -> key f = (None, "DBMS").
Proof.
  unfold dbms_findings. destruct (search dbms_re output); cbn; [|tauto].
  intros [<-|[]]. reflexivity.
Qed.

Lemma critical_findings_key lines f :
  In f (critical_findings lines) -> key f = (None, "CRITICAL").
Proof.
  unfold critical_findings. intros H.
  apply in_flat_map in H. destruct H as (l & _ & H).
  destruct (contains "is vulnerable" l); cbn in H; [|tauto].
  destruct H as [<-|[]]. reflexivity.
Qed.

Lemma has_parameter_false p results f :
  has_parameter p results = false -> In f results -> parameter f <> Some p.
Proof.
  unfold has_parameter. intros Hex Hin Hp.
  assert (existsb (fun r => bool_decide (parameter r = Some p)) results = true).
  { apply existsb_exists. exists f. split; [exact Hin|].
    apply bool_decide_eq_true. exact Hp. }
  congruence.
Qed.

(** A finding that stage 5 appends is for a parameter that no finding
    before it has. *)
Lemma added_vulnerabilities_fresh (vulns : list live_vuln) :
  forall results g,
    In g (added_vulnerabilities results vulns) ->
    exists p, parameter g = Some p
              /\ forall f, In f results -> parameter f <> Some p.
Proof.
  induction vulns as [|v vs IH]; intros results g; cbn; [tauto|].
  destruct (has_parameter (v_parameter v) results) eqn:Hhas.
  - apply IH.
  - intros [<-|Hin].
    + exists (v_parameter v). split; [reflexivity|].
      intros f. apply has_parameter_false. exact Hhas.
    + destruct (IH _ _ Hin) as (p & Hp & Hfresh).
      exists p. split; [exact Hp|].
      intros f Hf. apply Hfresh. apply in_or_app. left. exact Hf.
Qed.

Lemma in_stage_in_concat {A} (ls : list (list A)) i l x :
  ls !! i = Some l -> In x l -> In x (concat ls).
Proof.
  intros Hl Hx. apply in_concat. exists l. split; [|exact Hx].
  apply list_elem_of_In. eapply list_elem_of_lookup_2. exact Hl.
Qed.

Local Ltac stage_of H :=
  match type of H with
  | In _ (injection_findings _) =>
      apply injection_findings_parameter in H; destruct H as [? H]
  | In _ (alt_findings _) =>
      apply alt_findings_parameter in H; destruct H as [? H]
  | In _ (dbms_findings _) => apply dbms_findings_key in H
  | In _ (critical_findings _) => apply critical_findings_key in H
  | In _ [] => destruct H
  end.

(** C2, as the code has it: a later stage never adds a second finding
    for a parameter and type that an earlier stage reported, and what
    the earlier stage reported is kept.  The list of findings is the
    concatenation of what the five stages contribute, in order; a finding
    [f] of stage [i] is in it; and a finding [g] of a later stage [j]
    differs from [f] in its parameter or in its type.  (Within one stage
    the same parameter and type may be reported twice.) *)
Theorem later_stage_adds_no_second_finding
    (output : string) (crit : option (list string))
    (vulns : option (list live_vuln))
    (i j : nat) (si sj : list finding) (f g : finding) :
  i < j ->
  stages output crit vulns !! i = Some si ->
  stages output crit vulns !! j = Some sj ->
  In f si -> In g sj ->
  extract_results output crit vulns = concat (stages output crit vulns)
  /\ In f (extract_results output crit vulns)
  /\ key f <> key g.
Proof.
  intros Hij Hi Hj Hf Hg.
  split; [apply extract_results_stages|].
  split.
  { rewrite extract_results_stages.
    eapply in_stage_in_concat; [exact Hi|exact Hf]. }
  unfold stages in Hi, Hj.
  assert (Hs2 : forall x,
            In x (match injection_findings output with
                  | [] => alt_findings output
                  | _ :: _ => []
                  end) ->
            injection_findings output = []
            /\ exists p, parameter x = Some p).
  { intros x Hx. destruct (injection_findings output); [|destruct Hx].
    split; [reflexivity|]. eapply alt_findings_parameter; exact Hx. }
  assert (Hs4 : forall x,
            In x (match crit with
                  | Some lines => critical_findings lines
                  | None => []
                  end) -> key x = (None, "CRITICAL")).
  { intros x Hx. destruct crit; [|destruct Hx].
    eapply critical_findings_key; exact Hx. }
  assert (Hs5 : forall base x,
            In x (match vulns with
                  | Some vs => added_vulnerabilities base vs
                  | None => []
                  end) ->
            exists p, parameter x = Some p
                      /\ forall y, In y base -> parameter y <> Some p).
  { intros base x Hx. destruct vulns; [|destruct Hx].
    eapply added_vulnerabilities_fresh; exact Hx. }
  unfold key.
  destruct i as [|[|[|[|[|i]]]]]; cbn in Hi; try discriminate;
    injection Hi as <-;
    destruct j as [|[|[|[|[|j]]]]]; cbn in Hj; try discriminate; try lia;
    injection Hj as <-; intros Hkey; injection Hkey as Hp Ht.
  - (* 1, 2 *) apply Hs2 in Hg. destruct Hg as [He _].
    rewrite He in Hf. destruct Hf.
  - (* 1, 3 *) stage_of Hf. stage_of Hg. unfold key in Hg. congruence.
  - (* 1, 4 *) stage_of Hf. apply Hs4 in Hg. unfold key in Hg. congruence.
  - (* 1, 5 *) apply Hs5 in Hg. destruct Hg as (p & Hgp & Hfresh).
    apply (Hfresh f); [|congruence]. apply in_or_app. left. exact Hf.
  - (* 2, 3 *) apply Hs2 in Hf. destruct Hf as (_ & p & Hf).
    stage_of Hg. unfold key in Hg. congruence.
  - (* 2, 4 *) apply Hs2 in Hf. destruct Hf as (_ & p & Hf).
    apply Hs4 in Hg. unfold key in Hg. congruence.
  - (* 2, 5 *) apply Hs5 in Hg. destruct Hg as (p & Hgp & Hfresh).
    apply (Hfresh f); [|congruence].
    apply in_or_app. right. apply in_or_app. left. exact Hf.
  - (* 3, 4 *) stage_of Hf. apply Hs4 in Hg. unfold key in Hf, Hg.
    congruence.
  - (* 3, 5 *) stage_of Hf. apply Hs5 in Hg. destruct Hg as (p & Hgp & _).
    unfold key in Hf. congruence.
  - (* 4, 5 *) apply Hs4 in Hf. apply Hs5 in Hg. destruct Hg as (p & Hgp & _).
    unfold key in Hf. congruence.
Qed.

Lemma later_stage_adds_no_second_finding_witness :
  stages block_buffer None (Some live) !! 0 = Some [block_finding]
  /\ stages block_buffer None (Some live) !! 4 = Some [q_finding]
  /\ extract_results block_buffer None (Some live)
     = concat (stages block_buffer None (Some live))
  /\ In block_finding (extract_results block_buffer None (Some live))
  /\ key block_finding <> key q_finding.
Proof.
  split; [vm_compute; reflexivity|]. split; [vm_compute; reflexivity|].
  apply (later_stage_adds_no_second_finding block_buffer None (Some live)
           0 4 [block_finding] [q_finding]).
  - lia.
  - vm_compute. reflexivity.
  - vm_compute. reflexivity.
  - left. reflexivity.
  - left. reflexivity.
Defined.

(** C2 as stated fails on its first clause: the findings can hold the
    same parameter and type twice.  The fallback stage turns each
    matching line into a finding and compares nothing, so a buffer with
    the same line twice yields the same finding twice. *)
Lemma same_pair_reported_twice :
  extract_results (buffer [vulnerable_line; vulnerable_line]) None None
  = [vulnerable_finding; vulnerable_finding]
  /\ ~ NoDup (map key
        (extract_results (buffer [vulnerable_line; vulnerable_line])
           None None)).
Proof.
  assert (H : extract_results (buffer [vulnerable_line; vulnerable_line])
                None None
              = [vulnerable_finding; vulnerable_finding])
    by (vm_compute; reflexivity).
  split; [exact H|]. rewrite H. intros Hnd.
  apply NoDup_cons_1_1 in Hnd. apply Hnd. left.
Qed.

(** C7, as the code has it.  The findings are what the five stages
    contribute, in order.  The fallback stage contributes nothing when
    the structured stage found something, and otherwise what its pattern
    matches.  A line [<method> parameter '<name>' is vulnerable<rest>]
    (a method of word characters, a name without quote, a non-empty
    rest), wherever it stands in the buffer, is matched and becomes one
    finding with that parameter and the type
    [<method> - is vulnerable<rest>], placed between the findings of the
    lines before it and those of the lines after it. *)
Theorem fallback_only_without_injection_points
    (output : string) (crit : option (list string))
    (vulns : option (list live_vuln)) :
  extract_results output crit vulns = concat (stages output crit vulns)
  /\ (injection_findings output <> [] ->
        stages output crit vulns !! 1 = Some [])
  /\ (injection_findings output = [] ->
        stages output crit vulns !! 1 = Some (alt_findings output))
  /\ (forall before after m n d,
        method_ok m -> name_ok n -> detail_ok d ->
        ends_line before -> line_ends after ->
        output = before +:+ alt_line m n d +:+ after ->
        alt_findings output
        = alt_findings before
          ++ finding_of_line m n d :: alt_findings after).
Proof.
  split; [apply extract_results_stages|].
  unfold stages. cbn [lookup list_lookup].
  split; [|split].
  - intros Hne. destruct (injection_findings output); [congruence|].
    reflexivity.
  - intros ->. reflexivity.
  - intros before after m n d Hm Hn Hd Hb Ha ->.
    apply alt_findings_line; assumption.
Qed.

Lemma fallback_only_without_injection_points_witness :
  (injection_findings block_buffer <> []
   /\ stages block_buffer None None !! 1 = Some [])
  /\ (injection_findings log_buffer = []
      /\ stages log_buffer None None !! 1
         = Some [finding_of_line "GET" "id"
                   ". Do you want to keep testing the others (if any)? [y/N] N"]).
Proof.
  split.
  - assert (Hne : injection_findings block_buffer <> [])
      by (vm_compute; discriminate).
    split; [exact Hne|].
    destruct (fallback_only_without_injection_points block_buffer None None)
      as (_ & H2 & _).
    exact (H2 Hne).
  - assert (He : injection_findings log_buffer = [])
      by (vm_compute; reflexivity).
    split; [exact He|].
    destruct (fallback_only_without_injection_points log_buffer None None)
      as (_ & _ & H3 & H4).
    rewrite (H3 He).
    rewrite (H4 log_before log_after "GET" "id"
               ". Do you want to keep testing the others (if any)? [y/N] N").
    + reflexivity.
    + split; [discriminate|]. cbn. auto.
    + split; [discriminate|]. cbn. repeat split; discriminate.
    + split; [discriminate|]. cbn. repeat split; discriminate.
    + vm_compute. reflexivity.
    + reflexivity.
    + reflexivity.
Defined.

(** C7 as stated fails on its last clause: a line of the shape
    [<method> parameter '<name>' <description>] becomes a finding only
    when the description starts with [is vulnerable].  The line below
    has the shape, the structured stage finds nothing in it, and no
    finding comes out. *)
Lemma line_without_keyword_gives_no_finding :
  injection_findings (buffer ["GET parameter 'id' appears to be dynamic"]) = []
  /\ alt_findings (buffer ["GET parameter 'id' appears to be dynamic"]) = []
  /\ extract_results (buffer ["GET parameter 'id' appears to be dynamic"])
       None None = [].
Proof. repeat split; vm_compute; reflexivity. Qed.

End SqlmapSpec.


(* ===================================================================== *)
(** * Further properties of the module *)
(* ===================================================================== *)

Module SqlmapExtra.

Import PyStr Re Sqlmap Scenario Notions.

(** ** The options of the adapter *)

Lemma strip_prefix_Some (p s r : string) :
  strip_prefix p s = Some r -> s = p +:+ r.
Proof.
  revert s. induction p as [|a p IH]; intros s H.
  - destruct s; cbn in H; injection H as <-; reflexivity.
  - destruct s as [|b s]; [discriminate|]. cbn in H.
    destruct (Ascii.eqb a b) eqn:Hab; [|discriminate].
    apply Ascii.eqb_eq in Hab. subst b.
    rewrite (IH _ H). reflexivity.
Qed.

Lemma in_dict_set name value d k v :
  In (k, v) (dict_set name value d) ->
  (k = name /\ v = value) \/ In (k, v) d.
Proof.
  induction d as [|[k0 v0] d IH]; cbn.
  - intros [H|[]]. injection H as <- <-. auto.
  - destruct (String.eqb k0 name) eqn:Hk.
    + apply String.eqb_eq in Hk. subst k0.
      intros [H|H]; [injection H as <- <-; auto|auto].
    + intros [H|H]; [auto|]. destruct (IH H); auto.
Qed.

Lemma data_options_from_data (D : list string) (n : nat) :
  forall data options,
    length data <= n -> incl data D ->
    (forall k v, In (k, v) options -> from_data D k v) ->
    forall k v, In (k, v) (data_options data options) -> from_data D k v.
Proof.
  induction n as [|n IH]; intros data options Hlen Hincl Hopt k v.
  - destruct data; [apply Hopt|cbn in Hlen; lia].
  - destruct data as [|d rest]; [apply Hopt|]. cbn in Hlen.
    cbn [data_options].
    assert (Hrest : incl rest D).
    { intros x Hx. apply Hincl. right. exact Hx. }
    destruct (strip_prefix "--" d) as [name|] eqn:Hd.
    + apply strip_prefix_Some in Hd.
      assert (HdD : In ("--" +:+ name) D).
      { rewrite <- Hd. apply Hincl. left. reflexivity. }
      destruct rest as [|x rest'].
      * intros H. apply in_dict_set in H. destruct H as [[-> ->]|H].
        -- split; [exact HdD|auto].
        -- apply Hopt. exact H.
      * destruct (startswith x "--") eqn:Hx.
        -- apply IH; [lia|exact Hrest|].
           intros k' v' H. apply in_dict_set in H.
           destruct H as [[-> ->]|H]; [split; [exact HdD|auto]|auto].
        -- apply IH; [cbn in Hlen; lia| |].
           ++ intros y Hy. apply Hrest. right. exact Hy.
           ++ intros k' v' H. apply in_dict_set in H.
              destruct H as [[-> ->]|H]; [|auto].
              split; [exact HdD|]. right. exists x.
              split; [reflexivity|]. split; [|exact Hx].
              apply Hrest. left. reflexivity.
    + apply IH; [lia|exact Hrest|exact Hopt].
Qed.

(** X1: the command line of a scan started through the adapter holds,
    after its five fixed arguments, nothing the caller did not pass:
    every further argument is [--k] or [--k=s] for an element [--k] of
    [data], and [s] is an element of [data] that does not start with
    [--]. *)
Theorem adapter_arguments_come_from_data
    (url : string) (data : list string) (arg : string) :
  In arg (drop 5 (build_cmd url (data_options data []))) ->
  exists k,
    In ("--" +:+ k) data
    /\ (arg = "--" +:+ k
        \/ exists s, In s data /\ startswith s "--" = false
                     /\ arg = "--" +:+ k +:+ "=" +:+ s).
Proof.
  unfold build_cmd. cbn [app drop]. intros H.
  apply in_flat_map in H. destruct H as ([k v] & Hin & Harg).
  destruct (data_options_from_data data (length data) data [] (le_n _)
              (incl_refl _) (fun _ _ H => match H with end) k v Hin)
    as (Hk & [->|(s & -> & Hs & Hns)]).
  - exists k. split; [exact Hk|]. left. destruct Harg as [<-|[]]. reflexivity.
  - exists k. split; [exact Hk|]. right. exists s.
    destruct Harg as [<-|[]]. auto.
Qed.

Lemma adapter_arguments_come_from_data_witness :
  exists k,
    In ("--" +:+ k) ["--level"; "3"; "junk"; "--forms"]
    /\ ("--level=3" = "--" +:+ k
        \/ exists s, In s ["--level"; "3"; "junk"; "--forms"]
                     /\ startswith s "--" = false
                     /\ "--level=3" = "--" +:+ k +:+ "=" +:+ s).
Proof.
  apply (adapter_arguments_come_from_data "http://h/"
           ["--level"; "3"; "junk"; "--forms"] "--level=3").
  vm_compute. left. reflexivity.
Defined.

Lemma keys_dict_set name value d :
  map fst (dict_set name value d)
  = if existsb (String.eqb name) (map fst d) then map fst d
    else map fst d ++ [name].
Proof.
  induction d as [|[k v] d IH]; cbn; [reflexivity|].
  rewrite (String.eqb_sym name k).
  destruct (String.eqb k name) eqn:Hk; cbn; [reflexivity|].
  rewrite IH. destruct (existsb (String.eqb name) (map fst d)); reflexivity.
Qed.

Lemma NoDup_keys_dict_set name value d :
  NoDup (map fst d) -> NoDup (map fst (dict_set name value d)).
Proof.
  intros Hnd. rewrite keys_dict_set.
  destruct (existsb (String.eqb name) (map fst d)) eqn:Hex; [exact Hnd|].
  apply NoDup_app. split; [exact Hnd|]. split.
  - intros x Hx Hx'. apply list_elem_of_In in Hx, Hx'.
    destruct Hx' as [->|[]].
    assert (existsb (String.eqb x) (map fst d) = true); [|congruence].
    apply existsb_exists. exists x. split; [exact Hx|apply String.eqb_refl].
  - apply NoDup_singleton.
Qed.

Lemma NoDup_keys_data_options (n : nat) :
  forall data options,
    length data <= n -> NoDup (map fst options) ->
    NoDup (map fst (data_options data options)).
Proof.
  induction n as [|n IH]; intros data options Hlen Hnd.
  - destruct data; [exact Hnd|cbn in Hlen; lia].
  - destruct data as [|d rest]; [exact Hnd|]. cbn in Hlen.
    cbn [data_options].
    destruct (strip_prefix "--" d) as [name|]; [|apply IH; [lia|exact Hnd]].
    destruct rest as [|x rest'];
      [apply NoDup_keys_dict_set; exact Hnd|].
    destruct (startswith x "--");
      (apply IH; [cbn in *; lia|apply NoDup_keys_dict_set; exact Hnd]).
Qed.

(** X2: the options built from [data] name every option once, however
    often [data] repeats it: the keys of the mapping are pairwise
    distinct. *)
Theorem adapter_options_have_distinct_names (data : list string) :
  NoDup (map fst (data_options data [])).
Proof.
  apply (NoDup_keys_data_options (length data)); [lia|constructor].
Qed.

(** ** The command line *)

Lemma option_args_shape key value :
  length (option_args key value) <= 1
  /\ Forall (fun a => startswith a "--" = true) (option_args key value).
Proof.
  destruct value as [[|]| | | |]; cbn; split; try lia;
    repeat constructor.
Qed.

(** X3: whatever the options, the argument vector starts with the
    executable, [-u], the URL, [--batch] and [--disable-coloring]; each
    option adds at most one argument after them, and each added
    argument starts with [--].  In particular no option can take the
    place of the URL or remove [--batch]. *)
Theorem options_only_append_dashed_arguments
    (target_url : string) (options : list (string * pyval)) :
  exists extra,
    build_cmd target_url options
    = [SQLMAP_PATH; "-u"; target_url; "--batch"; "--disable-coloring"]
      ++ extra
    /\ length extra <= length options
    /\ Forall (fun a => startswith a "--" = true) extra.
Proof.
  exists (flat_map (fun kv => option_args (fst kv) (snd kv)) options).
  split; [reflexivity|].
  induction options as [|[k v] options [IHl IHf]]; cbn [flat_map].
  - split; [cbn; lia|constructor].
  - destruct (option_args_shape k v) as [Hl Hf].
    rewrite length_app. cbn [length fst snd]. split; [lia|].
    apply Forall_app. split; assumption.
Qed.

(** X4: what the MCP tool puts on the command line for its [data]
    argument.  Without data, or with empty data, nothing; data that
    does not start with [--] becomes the single argument [--data=<data>];
    data that starts with [--] is not passed as data at all: the command
    line gets the bare flag [--data] followed by the data itself as a
    second flag (only [--data] when the data is the text [--data]). *)
Theorem scanner_data_argument
    (url : string) (data : option string) (task_id : string)
    (registry : gmap string task) (now : Z) :
  build_cmd url (snd (SqlmapScanner url data task_id registry now))
  = [SQLMAP_PATH; "-u"; url; "--batch"; "--disable-coloring"]
    ++ match data with
       | None | Some EmptyString => []
       | Some d =>
           if startswith d "--"
           then if String.eqb d "--data" then ["--data"] else ["--data"; d]
           else ["--data=" +:+ d]
       end.
Proof.
  unfold SqlmapScanner, ExecSqlmap, build_cmd. cbn [snd]. f_equal.
  destruct data as [[|a d]|]; [reflexivity| |reflexivity].
  cbn [data_options]. change (strip_prefix "--" "--data") with (Some "data").
  cbn iota. unfold startswith.
  destruct (strip_prefix "--" (String a d)) as [x|] eqn:Hx; [|reflexivity].
  apply strip_prefix_Some in Hx. rewrite Hx.
  change (String.eqb ("--" +:+ x) "--data") with (String.eqb x "data").
  change (dict_set x (VBool true) (dict_set "data" (VBool true) []))
    with (if String.eqb "data" x then [("data", VBool true)]
          else [("data", VBool true); (x, VBool true)]).
  rewrite (String.eqb_sym x "data").
  destruct (String.eqb "data" x); reflexivity.
Qed.

(** ** The parser *)

(** X5: the parser writes nothing but [results].  Every task of the
    registry it returns is a task of the registry it was given with, at
    most, its results replaced; the other tasks are untouched; and what
    it stores is never an empty list. *)
Theorem parser_writes_only_results
    (task_id id : string) (registry : gmap string task) (t' : task) :
  parse_scan_results_from_output task_id registry !! id = Some t' ->
  exists t,
    registry !! id = Some t
    /\ set_results (results t) t' = t
    /\ (id <> task_id -> t' = t)
    /\ (results t' = results t \/ exists f fs, results t' = Some (f :: fs)).
Proof.
  unfold parse_scan_results_from_output.
  destruct (registry !! task_id) as [t0|] eqn:H0.
  - destruct (decide (id = task_id)) as [->|Hne].
    + rewrite lookup_insert_eq. intros H. injection H as <-.
      exists t0. split; [exact H0|]. unfold parse_task.
      destruct (output t0) as [o|]; [|destruct t0; auto].
      destruct (extract_results o (critical_lines t0) (vulnerabilities t0))
        as [|f fs]; destruct t0; cbn; [auto|].
      split; [reflexivity|]. split; [congruence|eauto].
    + rewrite lookup_insert_ne by congruence. intros H.
      exists t'. destruct t'; auto.
  - intros H. exists t'. destruct t'; auto.
Qed.

Lemma parser_writes_only_results_witness :
  exists t,
    ({[ "t1" := set_output (Some block_buffer) (new_task url opts 0) ]}
       : gmap string task) !! "t1" = Some t
    /\ set_results (results t)
         (parse_task (set_output (Some block_buffer) (new_task url opts 0)))
       = t
    /\ ("t1" <> "t1" ->
        parse_task (set_output (Some block_buffer) (new_task url opts 0)) = t)
    /\ (results (parse_task (set_output (Some block_buffer)
                               (new_task url opts 0)))
        = results t
        \/ exists f fs,
             results (parse_task (set_output (Some block_buffer)
                                    (new_task url opts 0)))
             = Some (f :: fs)).
Proof.
  apply (parser_writes_only_results "t1" "t1"
           {[ "t1" := set_output (Some block_buffer) (new_task url opts 0) ]}).
  unfold parse_scan_results_from_output.
  rewrite lookup_singleton_eq. apply lookup_insert_eq.
Defined.

Lemma has_parameter_app p (l1 l2 : list finding) :
  has_parameter p (l1 ++ l2) = has_parameter p l1 || has_parameter p l2.
Proof. unfold has_parameter. apply existsb_app. Qed.

Lemma has_parameter_own (v : live_vuln) :
  has_parameter (v_parameter v) [finding_of_vuln v] = true.
Proof.
  unfold has_parameter. cbn. rewrite bool_decide_eq_true_2; reflexivity.
Qed.

Lemma added_vulnerabilities_distinct (vulns : list live_vuln) :
  forall results,
    NoDup (map parameter (added_vulnerabilities results vulns)).
Proof.
  induction vulns as [|v vs IH]; intros results; cbn; [constructor|].
  destruct (has_parameter (v_parameter v) results); [apply IH|].
  cbn. apply NoDup_cons. split; [|apply IH].
  intros Hin. apply list_elem_of_In, in_map_iff in Hin.
  destruct Hin as (g & Hg & Hin).
  destruct (SqlmapSpec.added_vulnerabilities_fresh _ _ _ Hin)
    as (p & Hp & Hfresh).
  apply (Hfresh (finding_of_vuln v)).
  - apply in_or_app. right. left. reflexivity.
  - cbn. congruence.
Qed.

(** X6: the merge of the vulnerabilities detected while streaming only
    appends, and it appends at most one finding per parameter: what it
    adds to [results] has pairwise distinct parameters, none of which
    had a finding in [results] before. *)
Theorem merge_adds_one_finding_per_new_parameter
    (results : list finding) (vulns : list live_vuln) :
  exists added,
    merge_vulnerabilities results vulns = results ++ added
    /\ NoDup (map parameter added)
    /\ (forall f g, In f results -> In g added -> parameter f <> parameter g)
    /\ (forall g, In g added -> exists v, In v vulns /\ g = finding_of_vuln v).
Proof.
  exists (added_vulnerabilities results vulns).
  split; [apply SqlmapSpec.merge_added|].
  split; [apply added_vulnerabilities_distinct|]. split.
  - intros f g Hf Hg.
    destruct (SqlmapSpec.added_vulnerabilities_fresh _ _ _ Hg)
      as (p & Hp & Hfresh).
    rewrite Hp. apply Hfresh. exact Hf.
  - revert results. induction vulns as [|v vs IH]; intros results g; cbn;
      [tauto|].
    destruct (has_parameter (v_parameter v) results).
    + intros Hg. destruct (IH _ _ Hg) as (v' & Hv' & ->). eauto.
    + intros [<-|Hg]; [eauto|].
      destruct (IH _ _ Hg) as (v' & Hv' & ->). eauto.
Qed.

Lemma merge_covers (vulns : list live_vuln) :
  forall results v,
    In v vulns ->
    has_parameter (v_parameter v) (merge_vulnerabilities results vulns) = true.
Proof.
  induction vulns as [|v0 vs IH]; intros results v; [intros []|].
  intros [->|Hin].
  - unfold merge_vulnerabilities. cbn [fold_left].
    fold (merge_vulnerabilities
            (if has_parameter (v_parameter v) results then results
             else results ++ [finding_of_vuln v]) vs).
    rewrite SqlmapSpec.merge_added, has_parameter_app.
    apply orb_true_iff. left.
    destruct (has_parameter (v_parameter v) results) eqn:Hh; [exact Hh|].
    rewrite has_parameter_app, has_parameter_own. apply orb_true_r.
  - unfold merge_vulnerabilities. cbn [fold_left]. apply IH. exact Hin.
Qed.

Lemma merge_nothing_new (vulns : list live_vuln) (results : list finding) :
  (forall v, In v vulns -> has_parameter (v_parameter v) results = true) ->
  merge_vulnerabilities results vulns = results.
Proof.
  unfold merge_vulnerabilities.
  induction vulns as [|v vs IH]; intros H; cbn; [reflexivity|].
  rewrite (H v) by (left; reflexivity).
  apply IH. intros v' Hv'. apply H. right. exact Hv'.
Qed.

(** X7: merging the same live-detected vulnerabilities a second time
    adds nothing: after the merge every one of them has a finding for
    its parameter. *)
Theorem merge_is_idempotent
    (results : list finding) (vulns : list live_vuln) :
  merge_vulnerabilities (merge_vulnerabilities results vulns) vulns
  = merge_vulnerabilities results vulns.
Proof.
  apply merge_nothing_new. intros v Hv. apply merge_covers. exact Hv.
Qed.

(** ** Submission and the status query *)

(** X8: submission and status round trip.  Queried at the moment it
    was submitted, a task is reported QUEUED, with its target, an
    elapsed time of 0.00 s and nothing else; and the submission changes
    the answer for no other task id. *)
Theorem status_right_after_submission
    (url : string) (options : list (string * pyval)) (task_id : string)
    (registry : gmap string task) (now : Z) :
  fst (get_scan_status task_id now
         (tasks (submit url options task_id registry now)))
  = inr {| r_task_id := task_id; r_status := QUEUED; r_target_url := url;
           r_elapsed_time := Some "0.00s"; r_results := None;
           r_partial_output := None; r_summary := None; r_error := None;
           r_command := None |}
  /\ forall id current_time,
       id <> task_id ->
       fst (get_scan_status id current_time
              (tasks (submit url options task_id registry now)))
       = fst (get_scan_status id current_time registry).
Proof.
  split.
  - unfold get_scan_status, submit. cbn [tasks].
    rewrite lookup_insert_eq. cbn [fst]. unfold status_of_task. cbn.
    rewrite Z.sub_diag. reflexivity.
  - intros id current_time Hne. unfold get_scan_status, submit. cbn [tasks].
    rewrite lookup_insert_ne by congruence.
    destruct (registry !! id); reflexivity.
Qed.

(** ** The listing *)

Lemma list_scans_ids (include_completed : bool) (items : list (string * task)) :
  map i_task_id (fst (list_scans include_completed items))
  = map fst (filter (fun kv => is_active (status (snd kv)) = true) items)
  /\ map i_task_id (snd (list_scans include_completed items))
     = if include_completed
       then map fst (filter (fun kv => is_active (status (snd kv)) = false)
                       items)
       else [].
Proof.
  induction items as [|[id t] items [IHa IHc]]; cbn [list_scans].
  - destruct include_completed; split; reflexivity.
  - destruct (list_scans include_completed items) as [act comp].
    cbn [fst snd] in IHa, IHc.
    rewrite !filter_cons. cbn [snd].
    destruct (is_active (status t)) eqn:Ha.
    + rewrite decide_True by reflexivity.
      rewrite decide_False by discriminate.
      cbn. rewrite IHa. split; [reflexivity|exact IHc].
    + rewrite decide_False by discriminate.
      rewrite decide_True by reflexivity.
      destruct include_completed; cbn; rewrite IHa; rewrite ?IHc;
        split; reflexivity.
Qed.

(** X9: the listing with completed tasks included is a partition of
    the registry's entries that keeps their order: the ids of the active
    list are those of the QUEUED and RUNNING tasks, the ids of the
    completed list are those of all the others, each in registry order,
    and together they are the ids of the registry. *)
Theorem listing_partitions_the_registry (items : list (string * task)) :
  let '(active, completed) := list_scans true items in
  map i_task_id active
  = map fst (filter (fun kv => is_active (status (snd kv)) = true) items)
  /\ map i_task_id completed
     = map fst (filter (fun kv => is_active (status (snd kv)) = false) items)
  /\ map i_task_id active ++ map i_task_id completed ≡ₚ map fst items
  /\ Forall (fun i => is_active (i_status i) = true
                      /\ i_end_time i = None) active
  /\ Forall (fun i => is_active (i_status i) = false
                      /\ is_Some (i_end_time i)) completed.
Proof.
  destruct (list_scans_ids true items) as [Ha Hc].
  destruct (list_scans true items) as [active completed] eqn:Hl.
  cbn [fst snd] in Ha, Hc.
  split; [exact Ha|]. split; [exact Hc|]. split.
  - rewrite Ha, Hc. clear. induction items as [|[id t] items IH]; [reflexivity|].
    rewrite !filter_cons. cbn [snd].
    destruct (is_active (status t)).
    + rewrite decide_True by reflexivity.
      rewrite decide_False by discriminate. cbn. rewrite IH. reflexivity.
    + rewrite decide_False by discriminate.
      rewrite decide_True by reflexivity. cbn.
      rewrite <- Permutation_middle, IH. reflexivity.
  - clear Ha Hc. revert active completed Hl.
    induction items as [|[id t] items IH]; intros active completed Hl;
      cbn [list_scans] in Hl.
    + injection Hl as <- <-. split; constructor.
    + destruct (list_scans true items) as [act comp].
      destruct (IH act comp eq_refl) as [IHa IHc].
      destruct (is_active (status t)) eqn:Hact; injection Hl as <- <-.
      * split; [|exact IHc]. constructor; [|exact IHa]. cbn. auto.
      * split; [exact IHa|]. constructor; [|exact IHc]. cbn. eauto.
Qed.

(** X10: without completed tasks the listing shows the same active
    tasks, entry for entry, and an empty completed list. *)
Theorem listing_without_completed (items : list (string * task)) :
  fst (list_scans false items) = fst (list_scans true items)
  /\ snd (list_scans false items) = [].
Proof.
  induction items as [|[id t] items [IHa IHc]]; cbn [list_scans];
    [split; reflexivity|].
  destruct (list_scans false items) as [a1 c1].
  destruct (list_scans true items) as [a2 c2].
  cbn [fst snd] in *. subst.
  destruct (is_active (status t)); split; reflexivity.
Qed.

(** ** The whole record along a scan *)

Lemma app_nil_r_s (a : string) : a +:+ EmptyString = a.
Proof. induction a as [|c a IH]; [reflexivity|]. rewrite SqlmapSpec.app_cons, IH. reflexivity. Qed.

Lemma extends_refl (b : option string) : is_Some b -> extends b b.
Proof. intros [o ->]. exists o, EmptyString. rewrite app_nil_r_s. auto. Qed.

Lemma extends_trans (a b c : option string) :
  extends a b -> extends b c -> extends a c.
Proof.
  intros (o & x & -> & ->) (o' & y & Ho & ->). injection Ho as <-.
  exists o, (x +:+ y). rewrite SqlmapSpec.app_assoc_s. auto.
Qed.

Lemma critical_in_grows (o added l : string) :
  critical_in (Some o) l -> critical_in (Some (o +:+ added)) l.
Proof.
  intros (Hm & a & b & Ho). injection Ho as ->. split; [exact Hm|].
  exists a, (b +:+ added). rewrite !SqlmapSpec.app_assoc_s. reflexivity.
Qed.

Lemma critical_in_last (o l : string) :
  contains "[CRITICAL]" l = true ->
  critical_in (Some (o +:+ l +:+ NL)) l.
Proof.
  intros Hm. split; [exact Hm|]. exists o, EmptyString.
  rewrite app_nil_r_s. reflexivity.
Qed.

Lemma on_stdout_line_form (line : string) (t : task) o cl vs :
  output t = Some o -> critical_lines t = Some cl ->
  vulnerabilities t = Some vs ->
  exists cl' vs',
    on_stdout_line line t
    = Ok (set_vulnerabilities (Some vs')
            (set_critical_lines (Some cl')
               (set_output (Some (o +:+ rstrip line +:+ NL)) t)))
    /\ (cl' = cl
        \/ (contains "[CRITICAL]" (rstrip line) = true
            /\ cl' = cl ++ [rstrip line])).
Proof.
  intros Ho Hcl Hvs. destruct t; cbn in Ho, Hcl, Hvs; subst.
  unfold on_stdout_line; cbn -[Nat.ltb].
  destruct (contains "[CRITICAL]" (rstrip line)) eqn:Hc; cbn -[Nat.ltb];
    destruct (contains "is vulnerable" (rstrip line)
              && contains "parameter" (rstrip line)); cbn -[Nat.ltb];
    try destruct (3 <? length (split (rstrip line)));
    eexists; eexists; (split; [reflexivity|]); auto.
Qed.

Lemma on_stderr_line_form (line : string) (t : task) o :
  output t = Some o ->
  on_stderr_line line t
  = Ok (set_errors (Some (default [] (errors t) ++ [rstrip line]))
          (set_output (Some (o +:+ "[ERROR] " +:+ rstrip line +:+ NL)) t)).
Proof.
  intros Ho. destruct t; cbn in Ho; subst.
  unfold on_stderr_line; cbn. destruct errors0; reflexivity.
Qed.

Lemma on_stdout_line_effect (line : string) (t : task) :
  streaming t ->
  exists t', on_stdout_line line t = Ok t' /\ line_effect t t'
             /\ errors t' = errors t.
Proof.
  intros ([o Ho] & [cl Hcl] & [vs Hvs]).
  destruct (on_stdout_line_form line t o cl vs Ho Hcl Hvs)
    as (cl' & vs' & -> & Hcl').
  eexists. split; [reflexivity|].
  destruct t; cbn in Ho, Hcl, Hvs; subst.
  unfold line_effect, streaming, critical_ok, extends; cbn.
  split; [|reflexivity].
  do 9 (split; [reflexivity|]).
  split; [eauto|]. split; [eauto|].
  intros Hall. destruct Hcl' as [->|[Hc ->]].
  - eapply Forall_impl; [exact Hall|].
    intros x Hx. apply critical_in_grows. exact Hx.
  - apply Forall_app. split.
    + eapply Forall_impl; [exact Hall|].
      intros x Hx. apply critical_in_grows. exact Hx.
    + constructor; [apply critical_in_last; exact Hc|constructor].
Qed.

Lemma on_stderr_line_effect (line : string) (t : task) :
  streaming t ->
  exists t', on_stderr_line line t = Ok t' /\ line_effect t t'
             /\ errors t' = Some (default [] (errors t) ++ [rstrip line]).
Proof.
  intros ([o Ho] & [cl Hcl] & [vs Hvs]).
  rewrite (on_stderr_line_form line t o Ho).
  eexists. split; [reflexivity|].
  destruct t; cbn in Ho, Hcl, Hvs; subst.
  unfold line_effect, streaming, critical_ok, extends; cbn.
  split; [|reflexivity].
  do 9 (split; [reflexivity|]).
  split; [eauto|]. split; [eauto|].
  intros Hall. eapply Forall_impl; [exact Hall|].
  intros x Hx. apply (critical_in_grows o _ x Hx).
Qed.

#[local] Arguments join : simpl never.
#[local] Arguments command_of : simpl never.
#[local] Arguments build_cmd : simpl never.

Lemma phase_reading u os now (w : world) (t : task) :
  reading (at_pc w) ->
  phase u os now w t
  <-> ((exists p, proc w = Some p /\ process_ok p) /\ status t = RUNNING
       /\ command t = Some (command_of u os) /\ unfinished t /\ streaming t).
Proof.
  unfold phase. intros [H|[H|H]]; rewrite H; reflexivity.
Qed.

Lemma scan_step_env u os task_id now (w : world) (p p' : process) :
  scan_inv u os task_id now w ->
  proc w = Some p -> process_ok p' ->
  scan_step u os task_id now w (with_proc p' w).
Proof.
  intros (t & Ht & Hu & Hos & Hst & Hclk & Hout & Hcrit & Hph) Hp Hp'.
  split; [|split; [cbn; lia|]].
  - exists t. cbn [tasks with_proc clock]. repeat (split; [assumption|]).
    unfold phase in *. cbn [at_pc with_proc proc clock].
    destruct (at_pc w).
    + destruct Hph as (Hn & _). congruence.
    + destruct Hph as (Hn & _). congruence.
    + destruct Hph as (_ & H). split; [eauto|exact H].
    + destruct Hph as (_ & H). split; [eauto|exact H].
    + destruct Hph as (_ & H). split; [eauto|exact H].
    + exact Hph.
  - exists t, t. cbn. auto using extends_refl.
Qed.

Lemma scan_step_line u os task_id now (w : world) (t t' : task)
    (p p' : process) (next : pc) :
  scan_inv u os task_id now w ->
  tasks w !! task_id = Some t ->
  reading (at_pc w) -> reading next ->
  proc w = Some p ->
  stdout_eof p' = stdout_eof p -> stderr_eof p' = stderr_eof p ->
  exit_status p' = exit_status p ->
  line_effect t t' ->
  scan_step u os task_id now w
    {| tasks := <[task_id := t']> (tasks w); clock := clock w;
       proc := Some p'; at_pc := next |}.
Proof.
  intros (t0 & Ht0 & Hu & Hos & Hst & Hclk & Hout & Hcrit & Hph)
         Ht Hr Hnext Hp He1 He2 He3
         (E1 & E2 & E3 & E4 & E5 & E6 & E7 & E8 & E9 & Eout & Estr & Ecrit).
  rewrite Ht in Ht0. injection Ht0 as <-.
  apply phase_reading in Hph; [|exact Hr].
  destruct Hph as ((p0 & Hp0 & Hok) & Hs & Hc & (U1 & U2 & U3) & _).
  rewrite Hp in Hp0. injection Hp0 as <-.
  split; [|split; [cbn; lia|]].
  - exists t'. cbn [tasks clock]. rewrite lookup_insert_eq.
    split; [reflexivity|].
    rewrite E2, E3, E4. repeat (split; [assumption|]).
    split; [destruct Eout as (o & a & _ & ->); eauto|].
    split; [auto|].
    apply phase_reading; [exact Hnext|]. cbn [proc].
    split.
    + exists p'. split; [reflexivity|]. unfold process_ok in *.
      rewrite He1, He2, He3. exact Hok.
    + rewrite E1, E6. unfold unfinished. rewrite E7, E8, E9. auto 8.
  - exists t, t'. cbn [tasks]. rewrite lookup_insert_eq. auto.
Qed.

Lemma parse_task_is_set_results (t : task) :
  exists r, parse_task t = set_results r t.
Proof.
  unfold parse_task. destruct (output t);
    [destruct (extract_results _ _ _)|]; eauto;
    exists (results t); destruct t; reflexivity.
Qed.

Lemma line_effect_refl (t : task) :
  is_Some (output t) -> streaming t -> line_effect t t.
Proof.
  intros Ho Hs. unfold line_effect.
  repeat (split; [reflexivity|]). auto using extends_refl.
Qed.

Lemma resume_scan_step u os task_id now (w w' : world) :
  scan_inv u os task_id now w ->
  resume task_id u os w = Some w' ->
  scan_step u os task_id now w w'.
Proof.
  intros Hinv Hstep. assert (Hinv' := Hinv).
  destruct Hinv' as (t & Ht & Hu & Hos & Hst & Hclk & Hout & Hcrit & Hph).
  unfold resume in Hstep. destruct (at_pc w) eqn:Hpc.
  - (* AtStart *)
    rewrite Ht in Hstep. injection Hstep as <-.
    unfold phase in Hph. rewrite Hpc in Hph.
    destruct Hph as (Hp & Hs & Hc & Ho & U1 & U2 & U3).
    split; [|split; [cbn; lia|]].
    + exists (mark_running (build_cmd u os) t). cbn [tasks clock].
      rewrite lookup_insert_eq. split; [reflexivity|].
      destruct t; cbn in *; subst.
      do 5 (split; [first [reflexivity | assumption | eauto]|]).
      split; [unfold critical_ok; cbn; constructor|].
      unfold phase, unfinished, streaming; cbn. eauto 12.
    + exists t, (mark_running (build_cmd u os) t). cbn [tasks].
      rewrite lookup_insert_eq. repeat (split; [first [assumption|reflexivity]|]).
      rewrite Ho. exists EmptyString, EmptyString.
      destruct t; cbn. auto.
  - (* AtSpawn *)
    destruct (proc w) eqn:Hp; [discriminate|]. injection Hstep as <-.
    unfold phase in Hph. rewrite Hpc in Hph.
    destruct Hph as (_ & _ & Hs & Hc & Hun & Hstr).
    split; [|split; [cbn; lia|]].
    + exists t. cbn [tasks set_proc clock]. repeat (split; [assumption|]).
      unfold phase; cbn. split; [|auto].
      exists spawned. split; [reflexivity|]. intros [x Hx]. discriminate Hx.
    + exists t, t. cbn. auto using extends_refl.
  - (* AtStdout *)
    assert (Hr : reading (at_pc w)) by (rewrite Hpc; left; reflexivity).
    assert (Hph' := Hph). apply phase_reading in Hph'; [|exact Hr].
    destruct Hph' as ((p0 & Hp0 & Hok) & _ & _ & _ & Hstr).
    rewrite Hp0 in Hstep.
    destruct (stdout_buf p0) as [|l rest].
    + destruct (stdout_eof p0); [|discriminate]. injection Hstep as <-.
      replace (set_proc p0 AtStderr w)
        with {| tasks := tasks w; clock := clock w; proc := Some p0;
                at_pc := AtStderr |} by reflexivity.
      rewrite <- (insert_id (tasks w) task_id t Ht) at 1.
      eapply scan_step_line; eauto.
      * right. left. reflexivity.
      * apply line_effect_refl; assumption.
    + rewrite Ht in Hstep. injection Hstep as <-.
      destruct (on_stdout_line_effect l t Hstr) as (t' & -> & Heff & _).
      cbn [settle]. eapply scan_step_line; eauto.
      right. left. reflexivity.
  - (* AtStderr *)
    assert (Hr : reading (at_pc w)) by (rewrite Hpc; right; left; reflexivity).
    assert (Hph' := Hph). apply phase_reading in Hph'; [|exact Hr].
    destruct Hph' as ((p0 & Hp0 & Hok) & _ & _ & _ & Hstr).
    rewrite Hp0 in Hstep.
    destruct (stderr_buf p0) as [|l rest].
    + destruct (stderr_eof p0); [|discriminate]. injection Hstep as <-.
      match goal with
      | |- scan_step _ _ _ _ _ (set_proc _ ?n _) =>
          replace (set_proc p0 n w)
            with {| tasks := tasks w; clock := clock w; proc := Some p0;
                    at_pc := n |} by reflexivity;
          rewrite <- (insert_id (tasks w) task_id t Ht) at 1;
          eapply scan_step_line; eauto;
          [destruct (stdout_at_eof p0 && stderr_at_eof p0);
             unfold reading; auto
          |apply line_effect_refl; assumption]
      end.
    + rewrite Ht in Hstep. injection Hstep as <-.
      destruct (on_stderr_line_effect l t Hstr) as (t' & -> & Heff & _).
      cbn [settle]. eapply scan_step_line; eauto.
      match goal with
      | |- reading (if ?c then _ else _) => destruct c; unfold reading; auto
      end.
  - (* AtWait *)
    assert (Hr : reading (at_pc w)) by (rewrite Hpc; right; right; reflexivity).
    assert (Hph' := Hph). apply phase_reading in Hph'; [|exact Hr].
    destruct Hph' as ((p0 & Hp0 & Hok) & Hs & Hc & (U1 & U2 & U3) & Hstr).
    rewrite Hp0 in Hstep.
    destruct (exit_status p0) as [rc|]; [|discriminate].
    injection Hstep as <-.
    assert (Hfin := SqlmapSpec.finish_task task_id rc (clock w) _ _ Ht).
    destruct (parse_task_is_set_results (set_status COMPLETED t)) as [r Hr'].
    split; [|split; [cbn; lia|]].
    + eexists. cbn [tasks clock]. split; [exact Hfin|].
      destruct (Z.eqb_spec rc 0) as [->|Hrc].
      * rewrite Hr'. destruct t; cbn in *; subst.
        repeat match goal with |- _ /\ _ => split end;
          try reflexivity; try assumption; eauto;
          [exists (clock w); split; [reflexivity|lia]
          |unfold ended; cbn; auto].
      * destruct t; cbn in *; subst.
        repeat match goal with |- _ /\ _ => split end;
          try reflexivity; try assumption; eauto;
          [exists (clock w); split; [reflexivity|lia]
          |unfold ended; cbn; right; left; eauto].
    + exists t. eexists. split; [exact Ht|]. split; [exact Hfin|].
      destruct Hout as [o Ho].
      destruct (rc =? 0)%Z; rewrite ?Hr'; destruct t; cbn in *; subst;
        apply extends_refl; eauto.
  - discriminate.
Qed.

Lemma throw_scan_step u os task_id now (e : string) (w w' : world) :
  scan_inv u os task_id now w ->
  throw task_id e w = Some w' ->
  scan_step u os task_id now w w'.
Proof.
  intros (t & Ht & Hu & Hos & Hst & Hclk & Hout & Hcrit & Hph) Hstep.
  unfold throw in Hstep.
  assert (Hrun : status t = RUNNING /\ command t = Some (command_of u os)
                 /\ unfinished t).
  { unfold phase in Hph.
    destruct (at_pc w); try discriminate; tauto. }
  assert (Hw : w' = {| tasks := on_exception task_id e (clock w) (tasks w);
                       clock := clock w; proc := proc w;
                       at_pc := Finished |}).
  { destruct (at_pc w); try discriminate; congruence. }
  subst w'. clear Hstep Hph.
  destruct Hrun as (Hs & Hc & U1 & U2 & U3).
  assert (Hl : on_exception task_id e (clock w) (tasks w) !! task_id
               = Some (set_end_time (Some (clock w))
                         (set_error (Some e) (set_status FAILED t)))).
  { unfold on_exception. rewrite lookup_alter_eq, Ht. reflexivity. }
  split; [|split; [cbn; lia|]].
  - eexists. cbn [tasks clock]. split; [exact Hl|].
    destruct t; cbn in *; subst.
    repeat match goal with |- _ /\ _ => split end;
      try reflexivity; try assumption; eauto;
      [exists (clock w); split; [reflexivity|lia]
      |unfold ended; cbn; right; right; eauto].
  - exists t. eexists. split; [exact Ht|]. split; [exact Hl|].
    destruct t; cbn in *. apply extends_refl. exact Hout.
Qed.

Lemma scan_step_tick u os task_id now (dt : Z) (w : world) :
  scan_inv u os task_id now w -> (0 <= dt)%Z ->
  scan_step u os task_id now w
    {| tasks := tasks w; clock := (clock w + dt)%Z; proc := proc w;
       at_pc := at_pc w |}.
Proof.
  intros (t & Ht & Hu & Hos & Hst & Hclk & Hout & Hcrit & Hph) Hdt.
  split; [|split; [cbn; lia|]].
  - exists t. cbn [tasks clock]. repeat (split; [first [assumption|lia]|]).
    unfold phase in *. cbn [at_pc proc clock].
    destruct (at_pc w); try exact Hph.
    destruct Hph as (Hc & (e & He & Hle) & Hend).
    split; [exact Hc|]. split; [|exact Hend]. exists e. split; [exact He|lia].
  - exists t, t. cbn. auto using extends_refl.
Qed.

Lemma process_ok_running (p' : process) :
  exit_status p' = None -> process_ok p'.
Proof. intros H [x Hx]. congruence. Qed.

Lemma step_scan_step cap u os task_id now (w w' : world) (e : event) :
  scan_inv u os task_id now w ->
  step cap task_id u os w e = Some w' ->
  scan_step u os task_id now w w'.
Proof.
  intros Hinv Hstep. destruct e; cbn [step] in Hstep.
  - eapply resume_scan_step; eassumption.
  - eapply throw_scan_step; eassumption.
  - unfold running in Hstep. destruct (proc w) as [p|] eqn:Hp; [|discriminate].
    destruct (exit_status p) eqn:Hx; [discriminate|].
    case_match; [|discriminate]. injection Hstep as <-.
    eapply scan_step_env; eauto. apply process_ok_running. exact Hx.
  - unfold running in Hstep. destruct (proc w) as [p|] eqn:Hp; [|discriminate].
    destruct (exit_status p) eqn:Hx; [discriminate|].
    case_match; [|discriminate]. injection Hstep as <-.
    eapply scan_step_env; eauto. apply process_ok_running. exact Hx.
  - unfold running in Hstep. destruct (proc w) as [p|] eqn:Hp; [|discriminate].
    destruct (exit_status p) eqn:Hx; [discriminate|].
    injection Hstep as <-.
    eapply scan_step_env; eauto. apply process_ok_running. exact Hx.
  - unfold running in Hstep. destruct (proc w) as [p|] eqn:Hp; [|discriminate].
    destruct (exit_status p) eqn:Hx; [discriminate|].
    injection Hstep as <-.
    eapply scan_step_env; eauto. apply process_ok_running. exact Hx.
  - unfold running in Hstep. destruct (proc w) as [p|] eqn:Hp; [|discriminate].
    destruct (exit_status p) eqn:Hx; [discriminate|].
    injection Hstep as <-.
    eapply scan_step_env; eauto. intros _. cbn. auto.
  - destruct (0 <=? dt)%Z eqn:Hdt; [|discriminate]. injection Hstep as <-.
    apply scan_step_tick; [exact Hinv|]. apply Z.leb_le. exact Hdt.
Qed.

Lemma scan_inv_submit u os task_id registry now :
  scan_inv u os task_id now (submit u os task_id registry now).
Proof.
  exists (new_task u os now). cbn [tasks submit clock].
  split; [apply lookup_insert_eq|]. cbn.
  unfold unfinished, critical_ok. cbn.
  repeat match goal with |- _ /\ _ => split end;
    try reflexivity; eauto; lia.
Qed.

Lemma run_scan_step cap u os task_id now (evs : list event) :
  forall w w',
    scan_inv u os task_id now w ->
    run cap task_id u os evs w = Some w' ->
    scan_step u os task_id now w w'.
Proof.
  induction evs as [|e evs IH]; intros w w' Hinv Hrun; cbn in Hrun.
  - injection Hrun as <-. split; [exact Hinv|]. split; [lia|].
    destruct Hinv as (t & Ht & _ & _ & _ & _ & Hout & _).
    exists t, t. auto using extends_refl.
  - destruct (step cap task_id u os w e) as [w1|] eqn:Hstep; [|discriminate].
    destruct (step_scan_step _ _ _ _ _ _ _ _ Hinv Hstep)
      as (Hinv1 & Hc1 & t & t1 & Ht & Ht1 & He1).
    destruct (IH _ _ Hinv1 Hrun) as (Hinv' & Hc' & t1' & t' & Ht1' & Ht' & He').
    rewrite Ht1 in Ht1'. injection Ht1' as <-.
    split; [exact Hinv'|]. split; [lia|].
    exists t, t'. eauto using extends_trans.
Qed.

Lemma reachable_scan_inv cap u os task_id registry now evs w :
  run cap task_id u os evs (submit u os task_id registry now) = Some w ->
  scan_inv u os task_id now w.
Proof.
  intros Hrun.
  apply (run_scan_step cap u os task_id now evs _ _
           (scan_inv_submit u os task_id registry now) Hrun).
Qed.

(** X11: what was submitted stays.  At any point of a scan the task
    still shows the target, the options and the start time it was
    submitted with. *)
Theorem submission_fields_never_change
    (cap : nat) (task_id url : string) (os : list (string * pyval))
    (registry : gmap string task) (now : Z) (evs : list event) (w : world) :
  run cap task_id url os evs (submit url os task_id registry now) = Some w ->
  exists t,
    tasks w !! task_id = Some t
    /\ target_url t = url /\ options t = os /\ start_time t = Some now.
Proof.
  intros Hrun.
  destruct (reachable_scan_inv _ _ _ _ _ _ _ _ Hrun)
    as (t & Ht & Hu & Hos & Hst & _).
  exists t. auto.
Qed.

Lemma submission_fields_never_change_witness :
  exists w,
    run 8 "t1" url opts (prints block 1) start = Some w
    /\ exists t,
         tasks w !! "t1" = Some t
         /\ target_url t = url /\ options t = opts
         /\ start_time t = Some 0%Z.
Proof.
  eexists. split; [vm_compute; reflexivity|].
  apply (submission_fields_never_change 8 "t1" url opts ∅ 0 (prints block 1)).
  vm_compute. reflexivity.
Defined.

(** X12: the recorded command is the argument vector of the scan.  A
    QUEUED task has no command; from RUNNING on the command is the
    arguments built from the submitted target and options, joined by
    spaces, and it is that vector the coroutine hands to the spawn. *)
Theorem command_is_the_joined_arguments
    (cap : nat) (task_id url : string) (os : list (string * pyval))
    (registry : gmap string task) (now : Z) (evs : list event) (w : world) :
  run cap task_id url os evs (submit url os task_id registry now) = Some w ->
  exists t,
    tasks w !! task_id = Some t
    /\ (status t = QUEUED -> command t = None)
    /\ (status t <> QUEUED ->
        command t = Some (join " " (build_cmd url os)))
    /\ (forall cmd, at_pc w = AtSpawn cmd -> cmd = build_cmd url os).
Proof.
  intros Hrun.
  destruct (reachable_scan_inv _ _ _ _ _ _ _ _ Hrun)
    as (t & Ht & _ & _ & _ & _ & _ & _ & Hph).
  exists t. split; [exact Ht|]. unfold phase in Hph.
  destruct (at_pc w) eqn:Hpc.
  - destruct Hph as (_ & Hs & Hc & _). rewrite Hs.
    repeat split; [auto|congruence|discriminate].
  - destruct Hph as (_ & Hcmd & Hs & Hc & _). rewrite Hs.
    repeat split; [discriminate|auto|congruence].
  - destruct Hph as (_ & Hs & Hc & _). rewrite Hs.
    repeat split; [discriminate|auto|discriminate].
  - destruct Hph as (_ & Hs & Hc & _). rewrite Hs.
    repeat split; [discriminate|auto|discriminate].
  - destruct Hph as (_ & Hs & Hc & _). rewrite Hs.
    repeat split; [discriminate|auto|discriminate].
  - destruct Hph as (Hc & _ & [(Hs & _)|[(Hs & _)|(Hs & _)]]); rewrite Hs;
      repeat split; first [discriminate|auto].
Qed.

Lemma command_is_the_joined_arguments_witness :
  exists w,
    run 8 "t1" url opts [Resume] start = Some w
    /\ exists t,
         tasks w !! "t1" = Some t
         /\ (status t = QUEUED -> command t = None)
         /\ (status t <> QUEUED ->
             command t = Some (join " " (build_cmd url opts)))
         /\ (forall cmd, at_pc w = AtSpawn cmd -> cmd = build_cmd url opts).
Proof.
  eexists. split; [vm_compute; reflexivity|].
  apply (command_is_the_joined_arguments 8 "t1" url opts ∅ 0 [Resume]).
  vm_compute. reflexivity.
Defined.

(** X13: the end of a scan is dated once and in order.  While a task is
    QUEUED or RUNNING it has no end time, no return code and no error;
    once it is COMPLETED or FAILED it has an end time, which lies
    between its start time and the present clock. *)
Theorem end_time_marks_the_terminal_state
    (cap : nat) (task_id url : string) (os : list (string * pyval))
    (registry : gmap string task) (now : Z) (evs : list event) (w : world) :
  run cap task_id url os evs (submit url os task_id registry now) = Some w ->
  exists t,
    tasks w !! task_id = Some t
    /\ (is_active (status t) = true ->
        end_time t = None /\ return_code t = None /\ error t = None)
    /\ (is_active (status t) = false ->
        exists e, end_time t = Some e /\ (now <= e <= clock w)%Z).
Proof.
  intros Hrun.
  destruct (reachable_scan_inv _ _ _ _ _ _ _ _ Hrun)
    as (t & Ht & _ & _ & _ & _ & _ & _ & Hph).
  exists t. split; [exact Ht|]. unfold phase, unfinished in Hph.
  destruct (at_pc w).
  - destruct Hph as (_ & Hs & _ & _ & U1 & U2 & U3). rewrite Hs. cbn.
    split; [auto|discriminate].
  - destruct Hph as (_ & _ & Hs & _ & (U1 & U2 & U3) & _). rewrite Hs. cbn.
    split; [auto|discriminate].
  - destruct Hph as (_ & Hs & _ & (U1 & U2 & U3) & _). rewrite Hs. cbn.
    split; [auto|discriminate].
  - destruct Hph as (_ & Hs & _ & (U1 & U2 & U3) & _). rewrite Hs. cbn.
    split; [auto|discriminate].
  - destruct Hph as (_ & Hs & _ & (U1 & U2 & U3) & _). rewrite Hs. cbn.
    split; [auto|discriminate].
  - destruct Hph as (_ & He & [(Hs & _)|[(Hs & _)|(Hs & _)]]); rewrite Hs;
      cbn; (split; [discriminate|auto]).
Qed.

Lemma end_time_marks_the_terminal_state_witness :
  exists w,
    run 8 "t1" url opts (prints block 1) start = Some w
    /\ exists t,
         tasks w !! "t1" = Some t
         /\ (is_active (status t) = true ->
             end_time t = None /\ return_code t = None /\ error t = None)
         /\ (is_active (status t) = false ->
             exists e, end_time t = Some e /\ (0 <= e <= clock w)%Z).
Proof.
  eexists. split; [vm_compute; reflexivity|].
  apply (end_time_marks_the_terminal_state 8 "t1" url opts ∅ 0
           (prints block 1)).
  vm_compute. reflexivity.
Defined.

(** X14: how a scan ended can be read off the record.  A task is
    COMPLETED exactly when its return code is 0, and then it has no
    error; a FAILED task either has a non-zero return code and no
    error (the process exited), or an error and no return code (an
    awaited call raised). *)
Theorem return_code_tells_the_outcome
    (cap : nat) (task_id url : string) (os : list (string * pyval))
    (registry : gmap string task) (now : Z) (evs : list event) (w : world) :
  run cap task_id url os evs (submit url os task_id registry now) = Some w ->
  exists t,
    tasks w !! task_id = Some t
    /\ (status t = COMPLETED <-> return_code t = Some 0%Z)
    /\ (status t = COMPLETED -> error t = None)
    /\ (status t = FAILED ->
        (error t = None /\ exists rc, rc <> 0%Z /\ return_code t = Some rc)
        \/ (return_code t = None /\ is_Some (error t))).
Proof.
  intros Hrun.
  destruct (reachable_scan_inv _ _ _ _ _ _ _ _ Hrun)
    as (t & Ht & _ & _ & _ & _ & _ & _ & Hph).
  exists t. split; [exact Ht|]. unfold phase, unfinished in Hph.
  assert (Hcase : (is_active (status t) = true /\ return_code t = None)
                  \/ ended t).
  { destruct (at_pc w).
    - destruct Hph as (_ & Hs & _ & _ & U1 & _). rewrite Hs. auto.
    - destruct Hph as (_ & _ & Hs & _ & (U1 & _) & _). rewrite Hs. auto.
    - destruct Hph as (_ & Hs & _ & (U1 & _) & _). rewrite Hs. auto.
    - destruct Hph as (_ & Hs & _ & (U1 & _) & _). rewrite Hs. auto.
    - destruct Hph as (_ & Hs & _ & (U1 & _) & _). rewrite Hs. auto.
    - right. apply Hph. }
  destruct Hcase as [[Ha Hrc]|[(Hs & Hrc & He)|[(Hs & He & rc & Hnz & Hrc)
                                               |(Hs & Hrc & He)]]].
  - rewrite Hrc. destruct (status t); try discriminate;
      (split; [split; discriminate|]); split; discriminate.
  - rewrite Hs, Hrc. repeat split; auto; discriminate.
  - rewrite Hs, Hrc. split; [split; [discriminate|congruence]|].
    split; [discriminate|]. intros _. left. eauto.
  - rewrite Hs, Hrc. split; [split; discriminate|].
    split; [discriminate|]. intros _. right. auto.
Qed.

Lemma return_code_tells_the_outcome_witness :
  exists w,
    run 8 "t1" url opts (prints block 0) start = Some w
    /\ exists t,
         tasks w !! "t1" = Some t
         /\ (status t = COMPLETED <-> return_code t = Some 0%Z)
         /\ (status t = COMPLETED -> error t = None)
         /\ (status t = FAILED ->
             (error t = None
              /\ exists rc, rc <> 0%Z /\ return_code t = Some rc)
             \/ (return_code t = None /\ is_Some (error t))).
Proof.
  eexists. split; [vm_compute; reflexivity|].
  apply (return_code_tells_the_outcome 8 "t1" url opts ∅ 0 (prints block 0)).
  vm_compute. reflexivity.
Defined.

(** X15: the output buffer is append-only.  Between any two points of
    a scan, the later buffer is the earlier one with text added at its
    end; nothing is removed or rewritten, and the clock does not go
    back. *)
Theorem output_buffer_only_grows
    (cap : nat) (task_id url : string) (os : list (string * pyval))
    (registry : gmap string task) (now : Z) (evs evs' : list event)
    (w w' : world) :
  run cap task_id url os evs (submit url os task_id registry now) = Some w ->
  run cap task_id url os evs' w = Some w' ->
  (clock w <= clock w')%Z
  /\ exists t t' o added,
       tasks w !! task_id = Some t /\ tasks w' !! task_id = Some t'
       /\ output t = Some o /\ output t' = Some (o +:+ added).
Proof.
  intros Hrun Hrun'.
  destruct (run_scan_step _ _ _ _ _ _ _ _
              (reachable_scan_inv _ _ _ _ _ _ _ _ Hrun) Hrun')
    as (_ & Hclk & t & t' & Ht & Ht' & (o & added & Ho & Ho')).
  split; [exact Hclk|]. exists t, t', o, added. auto.
Qed.

Lemma output_buffer_only_grows_witness :
  exists w w',
    run 8 "t1" url opts (take 9 (prints block 0)) start = Some w
    /\ run 8 "t1" url opts (drop 9 (prints block 0)) w = Some w'
    /\ (clock w <= clock w')%Z
    /\ exists t t' o added,
         tasks w !! "t1" = Some t /\ tasks w' !! "t1" = Some t'
         /\ output t = Some o /\ output t' = Some (o +:+ added).
Proof.
  eexists. eexists. split; [vm_compute; reflexivity|].
  split; [vm_compute; reflexivity|].
  apply (output_buffer_only_grows 8 "t1" url opts ∅ 0
           (take 9 (prints block 0)) (drop 9 (prints block 0))).
  - vm_compute. reflexivity.
  - vm_compute. reflexivity.
Defined.

(** X16: the critical lines are lines of the buffer.  At any point of
    a scan, every line recorded as critical holds the marker
    [[CRITICAL]] and stands in the output buffer, followed by a line
    feed. *)
Theorem critical_lines_are_buffer_lines
    (cap : nat) (task_id url : string) (os : list (string * pyval))
    (registry : gmap string task) (now : Z) (evs : list event) (w : world)
    (t : task) (lines : list string) (line : string) :
  run cap task_id url os evs (submit url os task_id registry now) = Some w ->
  tasks w !! task_id = Some t ->
  critical_lines t = Some lines -> In line lines ->
  contains "[CRITICAL]" line = true
  /\ exists before after,
       output t = Some (before +:+ line +:+ NL +:+ after).
Proof.
  intros Hrun Ht Hl Hin.
  destruct (reachable_scan_inv _ _ _ _ _ _ _ _ Hrun)
    as (t0 & Ht0 & _ & _ & _ & _ & _ & Hcrit & _).
  rewrite Ht in Ht0. injection Ht0 as <-.
  unfold critical_ok in Hcrit. rewrite Hl in Hcrit.
  rewrite List.Forall_forall in Hcrit. apply Hcrit. exact Hin.
Qed.

Lemma critical_lines_are_buffer_lines_witness :
  exists w t,
    run 8 "t1" url opts (prints critical_log 0) start = Some w
    /\ tasks w !! "t1" = Some t
    /\ critical_lines t = Some ["[12:00:05] [CRITICAL] unable to connect"]
    /\ contains "[CRITICAL]" "[12:00:05] [CRITICAL] unable to connect" = true
    /\ exists before after,
         output t
         = Some (before +:+ "[12:00:05] [CRITICAL] unable to connect"
                 +:+ NL +:+ after).
Proof.
  eexists. eexists. split; [vm_compute; reflexivity|].
  split; [vm_compute; reflexivity|]. split; [reflexivity|].
  eapply (critical_lines_are_buffer_lines 8 "t1" url opts ∅ 0
            (prints critical_log 0)).
  - vm_compute. reflexivity.
  - vm_compute. reflexivity.
  - reflexivity.
  - left. reflexivity.
Defined.

(** ** One scan and the other tasks *)

Lemma parse_other (task_id id : string) (m : gmap string task) :
  id <> task_id ->
  parse_scan_results_from_output task_id m !! id = m !! id.
Proof.
  intros Hne. unfold parse_scan_results_from_output.
  destruct (m !! task_id); [|reflexivity].
  apply lookup_insert_ne. congruence.
Qed.

Lemma step_other cap task_id url os (w w' : world) (e : event) (id : string) :
  id <> task_id ->
  step cap task_id url os w e = Some w' ->
  tasks w' !! id = tasks w !! id.
Proof.
  intros Hne Hstep.
  assert (Hins : forall (t : task) (m : gmap string task),
             <[task_id := t]> m !! id = m !! id)
    by (intros; apply lookup_insert_ne; congruence).
  assert (Halt : forall f (m : gmap string task),
             alter f task_id m !! id = m !! id)
    by (intros; apply lookup_alter_ne; congruence).
  destruct e; cbn [step] in Hstep.
  - assert (Hsettle : forall o p next,
               tasks (settle task_id o p next w) !! id = tasks w !! id).
    { intros [t|x t] p next; cbn [settle tasks]; unfold on_exception;
        rewrite ?Halt, Hins; reflexivity. }
    unfold resume in Hstep. destruct (at_pc w).
    + destruct (tasks w !! task_id); injection Hstep as <-; cbn [tasks];
        [apply Hins|reflexivity].
    + destruct (proc w); [discriminate|]. injection Hstep as <-. reflexivity.
    + destruct (proc w) as [p|]; [|discriminate].
      destruct (stdout_buf p).
      * destruct (stdout_eof p); [|discriminate]. injection Hstep as <-.
        reflexivity.
      * destruct (tasks w !! task_id); injection Hstep as <-;
          [apply Hsettle|reflexivity].
    + destruct (proc w) as [p|]; [|discriminate].
      destruct (stderr_buf p).
      * destruct (stderr_eof p); [|discriminate]. injection Hstep as <-.
        reflexivity.
      * destruct (tasks w !! task_id); injection Hstep as <-;
          [apply Hsettle|reflexivity].
    + destruct (proc w) as [p|]; [|discriminate].
      destruct (exit_status p) as [rc|]; [|discriminate].
      injection Hstep as <-. cbn [tasks]. unfold finish.
      rewrite !Halt. destruct (rc =? 0)%Z;
        rewrite ?parse_other, ?Halt by exact Hne; reflexivity.
    + discriminate.
  - unfold throw in Hstep.
    destruct (at_pc w); try discriminate; injection Hstep as <-;
      cbn [tasks]; unfold on_exception; apply Halt.
  - unfold running in Hstep. repeat (case_match; try discriminate).
    injection Hstep as <-. reflexivity.
  - unfold running in Hstep. repeat (case_match; try discriminate).
    injection Hstep as <-. reflexivity.
  - unfold running in Hstep. repeat (case_match; try discriminate).
    injection Hstep as <-. reflexivity.
  - unfold running in Hstep. repeat (case_match; try discriminate).
    injection Hstep as <-. reflexivity.
  - unfold running in Hstep. repeat (case_match; try discriminate).
    injection Hstep as <-. reflexivity.
  - case_match; [|discriminate]. injection Hstep as <-. reflexivity.
Qed.

(** X17: a scan touches no task but its own.  Whatever happens in the
    scan of [task_id], from any state of the registry (a line read, a
    parse, an exception), every other task of the registry stays as it
    was, and so does the answer of the status query for it. *)
Theorem scan_leaves_other_tasks_alone
    (cap : nat) (task_id url : string) (os : list (string * pyval))
    (evs : list event) (w w' : world) (id : string) :
  id <> task_id ->
  run cap task_id url os evs w = Some w' ->
  tasks w' !! id = tasks w !! id
  /\ forall current_time,
       fst (get_scan_status id current_time (tasks w'))
       = fst (get_scan_status id current_time (tasks w)).
Proof.
  intros Hne Hrun.
  assert (H : tasks w' !! id = tasks w !! id).
  { revert w Hrun. induction evs as [|e evs IH]; intros w Hrun; cbn in Hrun.
    - injection Hrun as <-. reflexivity.
    - destruct (step cap task_id url os w e) as [w1|] eqn:Hstep;
        [|discriminate].
      rewrite (IH _ Hrun). eapply step_other; eassumption. }
  split; [exact H|]. intros current_time. unfold get_scan_status.
  rewrite H. destruct (tasks w !! id); reflexivity.
Qed.

Lemma scan_leaves_other_tasks_alone_witness :
  exists w',
    run 8 "t1" url opts (prints block 0)
      (submit url opts "t1" {[ "t0" := running_task ]} 0) = Some w'
    /\ tasks w' !! "t0"
       = tasks (submit url opts "t1" {[ "t0" := running_task ]} 0) !! "t0"
    /\ forall current_time,
         fst (get_scan_status "t0" current_time (tasks w'))
         = fst (get_scan_status "t0" current_time
                  (tasks (submit url opts "t1" {[ "t0" := running_task ]} 0))).
Proof.
  eexists. split; [vm_compute; reflexivity|].
  apply (scan_leaves_other_tasks_alone 8 "t1" url opts (prints block 0)
           (submit url opts "t1" {[ "t0" := running_task ]} 0)).
  - discriminate.
  - vm_compute. reflexivity.
Defined.

(** ** What the status query says of a finished scan *)

(** X18: the report of a COMPLETED task.  It carries exactly the
    findings of the extraction over the buffer (none when there are
    none), a summary, the command, and neither partial output nor an
    error. *)
Theorem completed_report
    (cap : nat) (task_id url : string) (os : list (string * pyval))
    (registry : gmap string task) (now : Z) (evs : list event) (w : world)
    (t : task) (current_time : Z) :
  run cap task_id url os evs (submit url os task_id registry now) = Some w ->
  tasks w !! task_id = Some t ->
  status t = COMPLETED ->
  exists r,
    fst (get_scan_status task_id current_time (tasks w)) = inr r
    /\ r_status r = COMPLETED
    /\ r_results r = stored_findings t
    /\ is_Some (r_summary r)
    /\ r_command r = Some (join " " (build_cmd url os))
    /\ r_partial_output r = None /\ r_error r = None.
Proof.
  intros Hrun Ht Hs.
  destruct (reachable_scan_inv _ _ _ _ _ _ _ _ Hrun)
    as (t0 & Ht0 & _ & _ & _ & _ & [o Ho] & _ & Hph).
  rewrite Ht in Ht0. injection Ht0 as <-.
  assert (Hc : command t = Some (command_of url os)).
  { unfold phase in Hph. destruct (at_pc w);
      try (destruct Hph as (_ & Hs' & _); congruence);
      try (destruct Hph as (_ & _ & Hs' & _); congruence).
    apply Hph. }
  assert (Hr : results t = stored_findings t).
  { destruct (SqlmapSpec.run_inv _ _ _ _ _ _ _
                (SqlmapSpec.inv_submit url os task_id registry now) Hrun)
      as (t1 & Ht1 & Hi).
    rewrite Ht in Ht1. injection Ht1 as <-.
    destruct (at_pc w); cbn in Hi;
      try (destruct Hi as (Hs' & _); congruence).
    destruct Hi as (_ & [(Hs' & _)|(_ & H)]); [congruence|exact H]. }
  unfold get_scan_status. rewrite Ht. cbn [fst].
  eexists. split; [reflexivity|]. unfold status_of_task.
  cbn [r_status r_results r_summary r_command r_partial_output r_error].
  rewrite Hs, Ho, Hc.
  split; [reflexivity|]. split.
  - rewrite Hr. unfold stored_findings. rewrite Ho.
    destruct (extract_results o (critical_lines t) (vulnerabilities t));
      reflexivity.
  - split; [destruct (search summary_re o); eauto|]. auto.
Qed.

Lemma completed_report_witness :
  exists w t,
    run 8 "t1" url opts (prints block 0) start = Some w
    /\ tasks w !! "t1" = Some t
    /\ exists r,
         fst (get_scan_status "t1" 9000 (tasks w)) = inr r
         /\ r_status r = COMPLETED
         /\ r_results r = stored_findings t
         /\ is_Some (r_summary r)
         /\ r_command r = Some (join " " (build_cmd url opts))
         /\ r_partial_output r = None /\ r_error r = None.
Proof.
  eexists. eexists. split; [vm_compute; reflexivity|].
  split; [vm_compute; reflexivity|].
  eapply (completed_report 8 "t1" url opts ∅ 0 (prints block 0)).
  - vm_compute. reflexivity.
  - vm_compute. reflexivity.
  - reflexivity.
Defined.

(** X19: an exception is what the status query reports.  When a call
    the coroutine awaits (the spawn, a read, the wait) raises [e], the
    task becomes FAILED and from then on the status query answers
    FAILED with the error [e], whatever the error stream held. *)
Theorem raised_error_is_reported
    (cap : nat) (task_id url : string) (os : list (string * pyval))
    (registry : gmap string task) (now : Z) (evs evs' : list event)
    (w w1 w' : world) (e : string) (current_time : Z) :
  run cap task_id url os evs (submit url os task_id registry now) = Some w ->
  step cap task_id url os w (Throw e) = Some w1 ->
  run cap task_id url os evs' w1 = Some w' ->
  exists r,
    fst (get_scan_status task_id current_time (tasks w')) = inr r
    /\ r_status r = FAILED /\ r_error r = Some e
    /\ r_partial_output r = None /\ r_summary r = None.
Proof.
  intros Hrun Hstep Hrun'.
  destruct (reachable_scan_inv _ _ _ _ _ _ _ _ Hrun)
    as (t & Ht & _).
  assert (H1 : at_pc w1 = Finished
               /\ tasks w1 !! task_id
                  = Some (set_end_time (Some (clock w))
                            (set_error (Some e) (set_status FAILED t)))).
  { cbn [step] in Hstep. unfold throw in Hstep.
    destruct (at_pc w); try discriminate; injection Hstep as <-;
      cbn [at_pc tasks]; unfold on_exception;
      rewrite lookup_alter_eq, Ht; auto. }
  destruct H1 as [Hpc1 Ht1].
  assert (Hsame : tasks w' !! task_id = tasks w1 !! task_id).
  { clear Hrun Hstep Ht Ht1. revert w1 Hpc1 Hrun'.
    induction evs' as [|ev evs' IH]; intros w1 Hpc1 Hrun'; cbn in Hrun'.
    - injection Hrun' as <-. reflexivity.
    - destruct (step cap task_id url os w1 ev) as [w2|] eqn:Hs2;
        [|discriminate].
      assert (H2 : at_pc w2 = Finished /\ tasks w2 = tasks w1).
      { destruct ev; cbn [step] in Hs2.
        - unfold resume in Hs2. rewrite Hpc1 in Hs2. discriminate.
        - unfold throw in Hs2. rewrite Hpc1 in Hs2. discriminate.
        - unfold running in Hs2. repeat (case_match; try discriminate).
          injection Hs2 as <-. auto.
        - unfold running in Hs2. repeat (case_match; try discriminate).
          injection Hs2 as <-. auto.
        - unfold running in Hs2. repeat (case_match; try discriminate).
          injection Hs2 as <-. auto.
        - unfold running in Hs2. repeat (case_match; try discriminate).
          injection Hs2 as <-. auto.
        - unfold running in Hs2. repeat (case_match; try discriminate).
          injection Hs2 as <-. auto.
        - case_match; [|discriminate]. injection Hs2 as <-. auto. }
      destruct H2 as [Hpc2 Hm2]. rewrite (IH _ Hpc2 Hrun'), Hm2.
      reflexivity. }
  unfold get_scan_status. rewrite Hsame, Ht1. cbn [fst].
  eexists. split; [reflexivity|]. destruct t; cbn. auto.
Qed.

Lemma raised_error_is_reported_witness :
  exists w w1,
    run 8 "t1" url opts [Resume] start = Some w
    /\ step 8 "t1" url opts w (Throw "[Errno 2] No such file or directory: 'sqlmap'")
       = Some w1
    /\ exists r,
         fst (get_scan_status "t1" 10 (tasks w1)) = inr r
         /\ r_status r = FAILED
         /\ r_error r = Some "[Errno 2] No such file or directory: 'sqlmap'"
         /\ r_partial_output r = None /\ r_summary r = None.
Proof.
  eexists. eexists. split; [vm_compute; reflexivity|].
  split; [vm_compute; reflexivity|].
  eapply (raised_error_is_reported 8 "t1" url opts ∅ 0 [Resume] []).
  - vm_compute. reflexivity.
  - vm_compute. reflexivity.
  - reflexivity.
Defined.

(** X20: after a non-zero exit the status query shows the last line of
    standard error.  If the process exits with a non-zero status and
    the task has recorded error lines, the report is FAILED and its
    error is the last of those lines. *)
Theorem last_error_line_is_reported
    (cap : nat) (task_id url : string) (os : list (string * pyval))
    (registry : gmap string task) (now : Z) (evs : list event) (w : world)
    (p : process) (rc : Z) (t : task) (es : list string) (e : string)
    (current_time : Z) :
  run cap task_id url os evs (submit url os task_id registry now) = Some w ->
  at_pc w = AtWait -> proc w = Some p -> exit_status p = Some rc ->
  rc <> 0%Z ->
  tasks w !! task_id = Some t ->
  errors t = Some (es ++ [e]) ->
  exists w' r,
    step cap task_id url os w Resume = Some w'
    /\ fst (get_scan_status task_id current_time (tasks w')) = inr r
    /\ r_status r = FAILED /\ r_error r = Some e.
Proof.
  intros Hrun Hpc Hp Hx Hrc Ht He.
  destruct (reachable_scan_inv _ _ _ _ _ _ _ _ Hrun)
    as (t0 & Ht0 & _ & _ & _ & _ & _ & _ & Hph).
  rewrite Ht in Ht0. injection Ht0 as <-.
  unfold phase in Hph. rewrite Hpc in Hph.
  destruct Hph as (_ & _ & _ & (_ & _ & Herr) & _).
  eexists. eexists. cbn [step]. unfold resume. rewrite Hpc, Hp, Hx.
  split; [reflexivity|]. cbn [tasks]. unfold get_scan_status.
  rewrite (SqlmapSpec.finish_task _ _ _ _ _ Ht).
  apply Z.eqb_neq in Hrc. rewrite Hrc. cbn [fst].
  split; [reflexivity|]. destruct t; cbn in *. subst.
  split; [reflexivity|]. unfold last_error; cbn.
  destruct es as [|x es]; cbn; [reflexivity|].
  rewrite last_last. reflexivity.
Qed.

Lemma last_error_line_is_reported_witness :
  exists w p t,
    run 8 "t1" url opts failing_scan start = Some w
    /\ proc w = Some p
    /\ tasks w !! "t1" = Some t
    /\ exists w' r,
         step 8 "t1" url opts w Resume = Some w'
         /\ fst (get_scan_status "t1" 9000 (tasks w')) = inr r
         /\ r_status r = FAILED
         /\ r_error r = Some "sqlmap: error: missing a mandatory option".
Proof.
  eexists. eexists. eexists. split; [vm_compute; reflexivity|].
  split; [reflexivity|]. split; [vm_compute; reflexivity|].
  eapply (last_error_line_is_reported 8 "t1" url opts ∅ 0 failing_scan
            _ _ 2 _ ["Usage: python sqlmap [options]"]).
  - vm_compute. reflexivity.
  - reflexivity.
  - reflexivity.
  - reflexivity.
  - discriminate.
  - vm_compute. reflexivity.
  - reflexivity.
Defined.

(** ** The scan ends *)

Lemma resume_exited u os task_id now rc (w : world) :
  scan_inv u os task_id now w -> exited rc w ->
  at_pc w = AtStdout \/ at_pc w = AtStderr ->
  exists w',
    resume task_id u os w = Some w' /\ exited rc w'
    /\ reading (at_pc w') /\ resumes_left w' < resumes_left w.
Proof.
  intros (t & Ht & _ & _ & _ & _ & _ & _ & Hph) (p & Hp & Ho & He & Hx) Hpc.
  assert (Hstr : streaming t).
  { apply phase_reading in Hph; [apply Hph|].
    unfold reading. tauto. }
  unfold resume, resumes_left, exited. rewrite Hp.
  destruct Hpc as [Hpc|Hpc]; rewrite Hpc.
  - destruct (stdout_buf p) as [|l rest] eqn:Hb.
    + rewrite Ho. eexists. split; [reflexivity|]. cbn.
      split; [eauto 6|]. split; [unfold reading; auto|].
      rewrite Hb. cbn. lia.
    + rewrite Ht.
      destruct (SqlmapSpec.on_stdout_line_ok l t Hstr) as (t' & Hl & _).
      rewrite Hl. eexists. split; [reflexivity|]. cbn.
      split; [eexists; split; [reflexivity|]; cbn; auto|].
      split; [unfold reading; auto|]. lia.
  - destruct (stderr_buf p) as [|l rest] eqn:Hb.
    + rewrite He. eexists. split; [reflexivity|]. cbn.
      split; [eauto 6|].
      unfold stdout_at_eof, stderr_at_eof. rewrite Ho, He, Hb.
      destruct (stdout_buf p); cbn; (split; [unfold reading; auto|]); lia.
    + rewrite Ht.
      destruct (SqlmapSpec.on_stderr_line_ok l t Hstr) as (t' & Hl & _).
      rewrite Hl. eexists. split; [reflexivity|]. cbn.
      split; [eexists; split; [reflexivity|]; cbn; auto|].
      unfold stdout_at_eof, stderr_at_eof; cbn. rewrite Ho, He.
      destruct (stdout_buf p), rest; cbn;
        (split; [unfold reading; auto|]); lia.
Qed.

Lemma collect_exited u os task_id now cap rc (k : nat) :
  forall w,
    resumes_left w <= k ->
    scan_inv u os task_id now w -> exited rc w -> reading (at_pc w) ->
    exists n w' t,
      n <= resumes_left w
      /\ run cap task_id u os (resumes n) w = Some w'
      /\ at_pc w' = Finished
      /\ tasks w' !! task_id = Some t
      /\ status t = (if (rc =? 0)%Z then COMPLETED else FAILED)
      /\ return_code t = Some rc /\ end_time t = Some (clock w).
Proof.
  induction k as [|k IH]; intros w Hk Hinv Hex Hrd.
  - exfalso. destruct Hex as (p & Hp & _). unfold resumes_left in Hk.
    rewrite Hp in Hk. destruct Hrd as [H|[H|H]]; rewrite H in Hk;
      [destruct (stdout_buf p)|..]; lia.
  - destruct Hrd as [H|[H|H]].
    1,2: destruct (resume_exited _ _ _ _ _ _ Hinv Hex) as
           (w1 & Hr & Hex1 & Hrd1 & Hlt); [auto|];
         assert (Hs1 := resume_scan_step _ _ _ _ _ _ Hinv Hr);
         destruct Hs1 as (Hinv1 & _);
         destruct (IH w1 ltac:(lia) Hinv1 Hex1 Hrd1)
           as (n & w' & t & Hn & Hrun & Hpc & Ht & Hs & Hrc & Het);
         exists (S n), w', t; split; [lia|];
         split; [cbn [resumes repeat run step]; rewrite Hr; exact Hrun|];
         repeat (split; [assumption|]);
         rewrite Het; f_equal;
         (unfold resume in Hr; rewrite H in Hr;
          repeat case_match; try discriminate; injection Hr as <-;
          try reflexivity; unfold settle; case_match; reflexivity).
    destruct Hinv as (t & Ht & _). destruct Hex as (p & Hp & _ & _ & Hx).
    exists 1, {| tasks := finish task_id rc (clock w) (tasks w);
                 clock := clock w; proc := proc w; at_pc := Finished |}.
    eexists. split; [unfold resumes_left; rewrite Hp, H; lia|].
    split; [cbn [resumes repeat run step]; unfold resume;
            rewrite H, Hp, Hx; reflexivity|].
    split; [reflexivity|]. cbn [tasks].
    split; [apply (SqlmapSpec.finish_task _ _ _ _ _ Ht)|].
    destruct (rc =? 0)%Z.
    + destruct (parse_task_is_set_results (set_status COMPLETED t)) as [r ->].
      destruct t; cbn. auto.
    + destruct t; cbn. auto.
Qed.

(** X21: a scan whose process has exited ends.  Once the process has
    exited with status [rc] while the coroutine is in its reading loop
    or waits for the exit, resuming the coroutine ends it after at most
    two awaits for each line still unread and three more: the task is
    then COMPLETED when [rc] is 0 and FAILED otherwise, with [rc] as
    its return code and the time of the last resumption as its end
    time. *)
Theorem exited_process_is_collected
    (cap : nat) (task_id url : string) (os : list (string * pyval))
    (registry : gmap string task) (now : Z) (evs : list event) (w : world)
    (p : process) (rc : Z) :
  run cap task_id url os evs (submit url os task_id registry now) = Some w ->
  reading (at_pc w) ->
  proc w = Some p -> exit_status p = Some rc ->
  exists n w' t,
    n <= 2 * (length (stdout_buf p) + length (stderr_buf p)) + 3
    /\ run cap task_id url os (resumes n) w = Some w'
    /\ at_pc w' = Finished
    /\ tasks w' !! task_id = Some t
    /\ status t = (if (rc =? 0)%Z then COMPLETED else FAILED)
    /\ return_code t = Some rc /\ end_time t = Some (clock w).
Proof.
  intros Hrun Hrd Hp Hx.
  assert (Hinv := reachable_scan_inv _ _ _ _ _ _ _ _ Hrun).
  assert (Hex : exited rc w).
  { destruct Hinv as (t & _ & _ & _ & _ & _ & _ & _ & Hph).
    apply phase_reading in Hph; [|exact Hrd].
    destruct Hph as ((p0 & Hp0 & Hok) & _).
    rewrite Hp in Hp0. injection Hp0 as <-.
    destruct Hok as [Ho He]; [eauto|]. exists p. auto. }
  destruct (collect_exited url os task_id now cap rc _ w (le_n _)
              Hinv Hex Hrd) as (n & w' & t & Hn & H).
  exists n, w', t. split; [|exact H].
  unfold resumes_left in Hn. rewrite Hp in Hn.
  destruct Hrd as [H1|[H1|H1]]; rewrite H1 in Hn;
    [destruct (stdout_buf p); cbn in *|..]; lia.
Qed.

Lemma exited_process_is_collected_witness :
  exists w p,
    run 8 "t1" url opts failing_scan start = Some w
    /\ proc w = Some p
    /\ exists n w' t,
         n <= 2 * (length (stdout_buf p) + length (stderr_buf p)) + 3
         /\ run 8 "t1" url opts (resumes n) w = Some w'
         /\ at_pc w' = Finished
         /\ tasks w' !! "t1" = Some t
         /\ status t = FAILED
         /\ return_code t = Some 2%Z /\ end_time t = Some (clock w).
Proof.
  eexists. eexists. split; [vm_compute; reflexivity|].
  split; [reflexivity|].
  eapply (exited_process_is_collected 8 "t1" url opts ∅ 0 failing_scan
            _ _ 2).
  - vm_compute. reflexivity.
  - unfold reading. cbn. auto.
  - reflexivity.
  - reflexivity.
Defined.

(** ** What the reading loop takes for a parameter *)

Lemma contains_prefix (x b : string) : contains x (x +:+ b) = true.
Proof.
  assert (H : startswith (x +:+ b) x = true).
  { unfold startswith. rewrite SqlmapSpec.strip_prefix_app. reflexivity. }
  destruct (x +:+ b); cbn; cbn in H; rewrite H; reflexivity.
Qed.

Lemma contains_app_r (x a b : string) :
  contains x b = true -> contains x (a +:+ b) = true.
Proof.
  intros H. induction a as [|c a IH]; [exact H|].
  rewrite SqlmapSpec.app_cons. cbn [contains].
  destruct (startswith _ x); [reflexivity|exact IH].
Qed.

Lemma split_from_some (s : string) :
  forall w, 1 <= length (split_from (Some w) s).
Proof.
  induction s as [|a s IH]; intros w; cbn; [lia|].
  destruct (is_space a); [cbn; lia|apply IH].
Qed.

Lemma split_from_word (c : ascii) (a b : string) :
  is_space c = false ->
  forall cur, 1 <= length (split_from cur (a +:+ String c b)).
Proof.
  intros Hc. induction a as [|x a IH]; intros cur.
  - rewrite SqlmapSpec.app_nil. cbn. rewrite Hc.
    destruct cur; apply split_from_some.
  - rewrite SqlmapSpec.app_cons. cbn.
    destruct (is_space x), cur; cbn; try apply IH. lia.
Qed.

Lemma split_from_two_words (c : ascii) (a b : string) :
  is_space c = false ->
  forall w,
    2 <= length (split_from (Some w) (a +:+ String " " (String c b))).
Proof.
  intros Hc. induction a as [|x a IH]; intros w.
  - rewrite SqlmapSpec.app_nil. cbn. rewrite Hc.
    change (is_space " ") with true. cbn.
    pose proof (split_from_some b (String c EmptyString)). lia.
  - rewrite SqlmapSpec.app_cons. cbn. destruct (is_space x); [|apply IH].
    cbn. change (String " " (String c b))
           with (String " " EmptyString +:+ String c b).
    rewrite <- SqlmapSpec.app_assoc_s.
    pose proof (split_from_word c (a +:+ String " " EmptyString) b Hc None).
    lia.
Qed.

Lemma split_from_token (m r : string) :
  all_chars (fun a => is_space a = false) m ->
  forall w,
    split_from (Some w) (m +:+ String " " r)
    = (w +:+ m) :: split_from None r.
Proof.
  induction m as [|a m IH]; intros Hm w.
  - rewrite SqlmapSpec.app_nil, app_nil_r_s. reflexivity.
  - destruct Hm as [Ha Hm]. rewrite SqlmapSpec.app_cons. cbn. rewrite Ha.
    rewrite (IH Hm), SqlmapSpec.app_assoc_s. reflexivity.
Qed.

Lemma split_token (m r : string) :
  token m -> split (m +:+ String " " r) = m :: split r.
Proof.
  intros [Hne Hm]. destruct m as [|a m]; [congruence|].
  destruct Hm as [Ha Hm]. unfold split.
  rewrite SqlmapSpec.app_cons. cbn. rewrite Ha.
  rewrite (split_from_token _ _ Hm). reflexivity.
Qed.

(** X22: the reading loop takes the second word of the line for the
    parameter.  For a line of standard output that reads, without its
    trailing white space, <m> parameter '<n>' is vulnerable<d> (m a
    word without white space), the loop appends one entry to the
    task's vulnerabilities, and the parameter of that entry is the
    word parameter itself, not the name [n] between the quotes. *)
Theorem live_detection_records_the_word_parameter
    (stdout_line m n d : string) (t : task) (vs : list live_vuln) :
  token m ->
  rstrip stdout_line = alt_line m n d ->
  streaming t ->
  vulnerabilities t = Some vs ->
  exists t' ty,
    on_stdout_line stdout_line t = Ok t'
    /\ vulnerabilities t'
       = Some (vs ++ [{| v_parameter := "parameter"; v_type := ty |}]).
Proof.
  intros Hm Hline ([o Ho] & [cl Hcl] & _) Hvs.
  assert (Hshape : alt_line m n d
                   = m +:+ String " " ("parameter" +:+ String " "
                       (String "'" ((n +:+ String "'" EmptyString)
                          +:+ String " " (String "i"
                                ("s vulnerable" +:+ d)))))).
  { unfold alt_line. rewrite SqlmapSpec.app_assoc_s. reflexivity. }
  assert (H1 : contains "is vulnerable" (alt_line m n d) = true).
  { unfold alt_line. do 3 apply contains_app_r.
    change ("' is vulnerable" +:+ d) with ("' " +:+ ("is vulnerable" +:+ d)).
    apply contains_app_r, contains_prefix. }
  assert (H2 : contains "parameter" (alt_line m n d) = true).
  { unfold alt_line. apply contains_app_r.
    change (" parameter '" +:+ n +:+ "' is vulnerable" +:+ d)
      with (" " +:+ ("parameter" +:+ (" '" +:+ n +:+ "' is vulnerable" +:+ d))).
    apply contains_app_r, contains_prefix. }
  assert (H3 : exists l, split (alt_line m n d) = m :: "parameter" :: l
                         /\ 2 <= length l).
  { rewrite Hshape, (split_token _ _ Hm).
    rewrite (split_token "parameter"); [|split; [discriminate|cbn; tauto]].
    eexists. split; [reflexivity|]. unfold split. cbn [split_from].
    change (is_space "'") with false. cbn iota.
    apply split_from_two_words. reflexivity. }
  destruct H3 as (l & Hl & Hlen).
  destruct t; cbn in Ho, Hcl, Hvs; subst.
  unfold on_stdout_line. cbn -[Nat.ltb contains split strip_chr join].
  rewrite Hline.
  destruct (contains "[CRITICAL]" (alt_line m n d));
    cbn -[Nat.ltb contains split strip_chr join];
    rewrite H1, H2, Hl; cbn -[Nat.ltb strip_chr join];
    (destruct (Nat.ltb_spec 3 (S (S (length l)))); [|lia]);
    eexists; eexists; (split; [reflexivity|]); reflexivity.
Qed.

Lemma live_detection_records_the_word_parameter_witness :
  exists t' ty,
    on_stdout_line (vulnerable_line +:+ NL) running_task = Ok t'
    /\ vulnerabilities t'
       = Some ([] ++ [{| v_parameter := "parameter"; v_type := ty |}]).
Proof.
  apply (live_detection_records_the_word_parameter
           (vulnerable_line +:+ NL) "GET" "id"
           ". Do you want to keep testing the others (if any)? [y/N] N").
  - split; [discriminate|]. cbn. tauto.
  - vm_compute. reflexivity.
  - unfold streaming. cbn. eauto.
  - reflexivity.
Defined.

End SqlmapExtra.
